(** * Album repository: thumbnail consistency and asset counts

    A shallow embedding of [server/src/infra/repositories/album.repository.ts]
    (class [AlbumRepository]).  The repository methods are SQL statements
    assembled with a query builder; the embedding gives each statement its
    relational meaning over three tables kept as lists of rows:

      - [albums]                 one row per album,
      - [assets]                 one row per asset,
      - [albums_assets_assets]   the join table of the many-to-many relation.

    Conditions are evaluated in SQL's three-valued logic; promises are
    computations over a store that may be unreachable. *)

From Stdlib Require Import List String ZArith Bool Arith Lia Permutation.
From Stdlib Require Import DecimalString DecimalNat Sorted.
Import ListNotations.

Local Open Scope string_scope.
Local Open Scope list_scope.

(* ===================================================================== *)
(** ** Entities *)
(* ===================================================================== *)

(** Modelled from the spec: the entity declarations ([../entities]) are not
    among the sources; the columns are those of the data model that the
    repository's queries name. *)

(** [AssetEntity]: [id] and the capture timestamp [fileCreatedAt]. *)
Module AssetEntity.
Record t : Type := mk {
  id : string;
  fileCreatedAt : Z    (* timestamptz, microseconds since the epoch *)
}.
End AssetEntity.

(** [AlbumEntity]: [id], [ownerId], [createdAt] and the nullable reference
    [albumThumbnailAssetId]. *)
Module AlbumEntity.
Record t : Type := mk {
  id : string;
  ownerId : string;
  createdAt : Z;
  albumThumbnailAssetId : option string
}.

(** The [SET albumThumbnailAssetId = v] of an UPDATE on one row. *)
Definition set_albumThumbnailAssetId (v : option string) (a : t) : t :=
  mk (id a) (ownerId a) (createdAt a) v.
End AlbumEntity.

(** A row of the join table [albums_assets_assets] of the many-to-many
    relation between albums and assets. *)
Module AlbumsAssets.
Record t : Type := mk {
  albumsId : string;
  assetsId : string
}.
End AlbumsAssets.

(** The three tables.  A table is a bag of rows; the list order is the order
    in which the store happens to scan them. *)
Record Database : Type := mkDatabase {
  albums : list AlbumEntity.t;
  assets : list AssetEntity.t;
  albums_assets_assets : list AlbumsAssets.t
}.

(* ===================================================================== *)
(** ** SQL fragments *)
(* ===================================================================== *)

Module Sql.

(** A condition evaluates to TRUE, FALSE or NULL (unknown). *)
Definition cond := option bool.

Definition TRUE : cond := Some true.
Definition FALSE : cond := Some false.

(** [a = b]: NULL as soon as one side is NULL. *)
Definition eq (a b : option string) : cond :=
  match a, b with
  | Some x, Some y => Some (String.eqb x y)
  | _, _ => None
  end.

Definition and (p q : cond) : cond :=
  match p, q with
  | Some false, _ | _, Some false => Some false
  | Some true, Some true => Some true
  | _, _ => None
  end.

Definition or (p q : cond) : cond :=
  match p, q with
  | Some true, _ | _, Some true => Some true
  | Some false, Some false => Some false
  | _, _ => None
  end.

Definition not (p : cond) : cond := option_map negb p.

Definition is_null {A} (v : option A) : cond :=
  match v with None => TRUE | Some _ => FALSE end.

Definition is_not_null {A} (v : option A) : cond :=
  match v with None => FALSE | Some _ => TRUE end.

(** [EXISTS (subquery)] is never NULL. *)
Definition exists_ {A} (rows : list A) : cond :=
  match rows with [] => FALSE | _ :: _ => TRUE end.

(** [x IN (v1, ..., vn)] for non-NULL operands. *)
Definition in_ (x : string) (vs : list string) : cond :=
  Some (existsb (String.eqb x) vs).

(** A row passes WHERE only when its condition is TRUE. *)
Definition holds (p : cond) : bool :=
  match p with Some true => true | _ => false end.

Definition where_ {A} (p : A -> cond) (rows : list A) : list A :=
  filter (fun r => holds (p r)) rows.

(** [FROM t1, t2]: the cross product, [t1] outermost. *)
Definition from2 {A B} (t1 : list A) (t2 : list B) : list (A * B) :=
  list_prod t1 t2.

(** [ORDER BY key DESC]: largest key first; rows with equal keys stay in
    the order in which they were scanned. *)
Fixpoint insert_desc {A} (key : A -> Z) (x : A) (l : list A) : list A :=
  match l with
  | [] => [x]
  | y :: l' =>
      if (key y <=? key x)%Z then x :: y :: l'
      else y :: insert_desc key x l'
  end.

Fixpoint order_by_desc {A} (key : A -> Z) (l : list A) : list A :=
  match l with
  | [] => []
  | x :: l' => insert_desc key x (order_by_desc key l')
  end.

(** The first row of a list carries its largest key. *)
Definition head_is_largest {A} (key : A -> Z) (l : list A) : Prop :=
  match l with
  | [] => True
  | x :: l' => forall y, In y l' -> (key y <= key x)%Z
  end.

Definition limit {A} (n : nat) (rows : list A) : list A := firstn n rows.

Definition select {A B} (f : A -> B) (rows : list A) : list B := map f rows.

(** A subquery used as a scalar: NULL when it has no row. *)
Definition scalar {A} (rows : list (option A)) : option A :=
  match rows with
  | [] => None
  | v :: _ => v
  end.

(** [COUNT(expr)]: the rows where [expr] is not NULL. *)
Definition count {A B} (expr : A -> option B) (rows : list A) : nat :=
  List.length (filter (fun r => match expr r with Some _ => true | None => false end) rows).

(** [t1 LEFT JOIN t2 ON on]: a row of [t1] without a partner is kept once,
    with NULLs for the columns of [t2]. *)
Definition left_join_row {A B} (on : A -> B -> cond) (t2 : list B) (a : A)
  : list (A * option B) :=
  match where_ (on a) t2 with
  | [] => [(a, None)]
  | partners => map (fun b => (a, Some b)) partners
  end.

Definition left_join {A B} (on : A -> B -> cond) (t1 : list A) (t2 : list B)
  : list (A * option B) :=
  flat_map (left_join_row on t2) t1.

(** [GROUP BY key]: one group per distinct key. *)
Definition group_by {A} (key : A -> string) (rows : list A)
  : list (string * list A) :=
  map (fun k => (k, filter (fun r => String.eqb (key r) k) rows))
    (nodup string_dec (map key rows)).

(** [UPDATE t SET ... WHERE p]: the new rows and the number of rows hit.
    [set] and [p] see the row as it was before the statement. *)
Definition update {A} (set : A -> A) (p : A -> cond) (rows : list A)
  : nat * list A :=
  (List.length (where_ p rows),
   map (fun r => if holds (p r) then set r else r) rows).

(** [ORDER BY key DESC] on a nullable key: the rows whose key is NULL come
    first, then the others, largest key first. *)
Definition order_by_desc_nulls_first {A} (key : A -> option Z) (rows : list A)
  : list A :=
  filter (fun r => match key r with None => true | Some _ => false end) rows
  ++ order_by_desc
       (fun r => match key r with Some z => z | None => 0%Z end)
       (filter (fun r => match key r with None => false | Some _ => true end)
               rows).

(** [DELETE FROM t WHERE p]: the number of rows deleted and the rows left,
    which are those where [p] is not TRUE. *)
Definition delete {A} (p : A -> cond) (rows : list A) : nat * list A :=
  (List.length (where_ p rows),
   filter (fun r => negb (holds (p r))) rows).

(** [ON DELETE CASCADE] of a foreign key: a row that references a deleted
    row is deleted with it. *)
Definition on_delete_cascade {A B} (references : B -> A -> cond)
           (deleted : list A) (rows : list B) : list B :=
  filter (fun r => negb (holds (exists_ (where_ (references r) deleted)))) rows.

End Sql.

(* ===================================================================== *)
(** ** The store and promises *)
(* ===================================================================== *)

(** Modelled from the spec: the error kind with which an operation fails
    when the store cannot be reached.  The ORM's own error classes are not
    among the sources. *)
Inductive StoreError : Type :=
| StoreUnavailable.

(** The connection the repository is injected with.  [reportsAffected] says
    whether the driver fills in [UpdateResult.affected]; [issued] counts the
    statements sent so far. *)
Record Store : Type := mkStore {
  reachable : bool;
  reportsAffected : bool;
  issued : nat;
  database : Database
}.

(** [Promise A]: an asynchronous computation over the store that either
    rejects or resolves to an [A]. *)
Definition Promise (A : Type) : Type := Store -> (StoreError + A) * Store.

Definition resolve {A} (a : A) : Promise A := fun s => (inr a, s).

Definition await {A B} (p : Promise A) (k : A -> Promise B) : Promise B :=
  fun s =>
    match p s with
    | (inl e, s') => (inl e, s')
    | (inr a, s') => k a s'
    end.

Notation "'let*' x ':=' p 'in' k" := (await p (fun x => k))
  (at level 10, x name, p at level 100, k at level 200).

(** Modelled from the spec: the query builder's terminal calls ([getMany],
    [getRawMany], [execute]) belong to the ORM, which is not among the
    sources.  A statement sent to an unreachable store rejects with
    [StoreUnavailable] and writes nothing; a statement that runs is applied
    as one atomic step.  [run] is the statement's meaning on the tables. *)
Definition statement {A} (run : Database -> A * Database) : Promise A :=
  fun s =>
    if reachable s then
      let (a, d) := run (database s) in
      (inr a, mkStore (reachable s) (reportsAffected s) (S (issued s)) d)
    else (inl StoreUnavailable, s).

(** A SELECT reads the tables and leaves them as they are. *)
Definition query {A} (rows : Database -> A) : Promise A :=
  statement (fun d => (rows d, d)).

(** [UpdateResult]: [affected] is [number | undefined]. *)
Record UpdateResult : Type := mkUpdateResult {
  affected : option nat
}.

(** Send an UPDATE.  [run] gives the number of rows hit and the new tables;
    the driver passes the number on only when it can report it. *)
Definition execute (run : Database -> nat * Database) : Promise UpdateResult :=
  fun s =>
    statement (fun d =>
                 let (n, d') := run d in
                 (mkUpdateResult (if reportsAffected s then Some n else None), d')) s.

(* ===================================================================== *)
(** ** JavaScript values used by the repository *)
(* ===================================================================== *)

(** A JavaScript [number] as far as counting needs it. *)
Inductive number : Type :=
| Finite (n : nat)
| NaN.

(** [Number(s)] on the decimal strings the driver returns for a [bigint]. *)
Definition Number (s : string) : number :=
  match NilZero.uint_of_string s with
  | Some d => Finite (Nat.of_uint d)
  | None => NaN
  end.

(** How the driver renders a [bigint] column: a decimal string. *)
Definition bigint_to_string (n : nat) : string :=
  NilZero.string_of_uint (Nat.to_uint n).

(** [AlbumAssetCount] of the domain layer. *)
Record AlbumAssetCount : Type := mkAlbumAssetCount {
  albumId : string;
  assetCount : number
}.

(** A raw row of the counting query, as [getRawMany] returns it. *)
Record RawAlbumCount : Type := mkRawAlbumCount {
  album_id : string;
  asset_count : string
}.

(** [AlbumInfoOptions] of the domain layer: the option [getById] reads. *)
Record AlbumInfoOptions : Type := mkAlbumInfoOptions {
  withAssets : bool
}.

(** An album as [getById] hands it back: the row and the relation [assets],
    which is present only when it was asked for. *)
Record AlbumWithAssets : Type := mkAlbumWithAssets {
  entity : AlbumEntity.t;
  loadedAssets : option (list AssetEntity.t)
}.

(* ===================================================================== *)
(** ** [AlbumRepository] *)
(* ===================================================================== *)

Module AlbumRepository.

Import AlbumEntity AlbumsAssets.

(** [SELECT 1 FROM albums_assets_assets albums_assets
     WHERE "albums"."id" = "albums_assets"."albumsId"],
    correlated with the row [album] of the outer statement (alias "albums"). *)
Definition albumHasAssets (d : Database) (album : AlbumEntity.t)
  : list AlbumsAssets.t :=
  Sql.where_
    (fun albums_assets =>
       Sql.eq (Some (id album)) (Some (albumsId albums_assets)))
    (albums_assets_assets d).

(** [albumHasAssets.clone().andWhere(
       '"albums"."albumThumbnailAssetId" = "albums_assets"."assetsId"')]. *)
Definition albumContainsThumbnail (d : Database) (album : AlbumEntity.t)
  : list AlbumsAssets.t :=
  Sql.where_
    (fun albums_assets =>
       Sql.and
         (Sql.eq (Some (id album)) (Some (albumsId albums_assets)))
         (Sql.eq (albumThumbnailAssetId album) (Some (assetsId albums_assets))))
    (albums_assets_assets d).

(** The [.where(...).orWhere(...)] that [getInvalidThumbnail] and
    [updateThumbnails] both put on [albums]:
      thumbnail IS NULL AND EXISTS (albumHasAssets)
      OR thumbnail IS NOT NULL AND NOT EXISTS (albumContainsThumbnail). *)
Definition invalidThumbnail (d : Database) (album : AlbumEntity.t) : Sql.cond :=
  Sql.or
    (Sql.and (Sql.is_null (albumThumbnailAssetId album))
             (Sql.exists_ (albumHasAssets d album)))
    (Sql.and (Sql.is_not_null (albumThumbnailAssetId album))
             (Sql.not (Sql.exists_ (albumContainsThumbnail d album)))).

(** [getInvalidThumbnail]: the ids of the albums with an invalid thumbnail. *)
Definition getInvalidThumbnail : Promise (list string) :=
  let* found := query (fun d => Sql.where_ (invalidThumbnail d) (albums d)) in
  resolve (map id found).

(** The subquery [newThumbnail]:
      SELECT albums_assets2.assetsId
      FROM assets, albums_assets_assets albums_assets2
      WHERE albums_assets2.assetsId = assets.id
        AND albums_assets2.albumsId = "albums"."id"
      ORDER BY assets.fileCreatedAt DESC LIMIT 1. *)
Definition newThumbnailRows (d : Database) (album : AlbumEntity.t)
  : list (AssetEntity.t * AlbumsAssets.t) :=
  Sql.where_
    (fun row : AssetEntity.t * AlbumsAssets.t =>
       let (asset, albums_assets2) := row in
       Sql.and
         (Sql.eq (Some (assetsId albums_assets2)) (Some (AssetEntity.id asset)))
         (Sql.eq (Some (albumsId albums_assets2)) (Some (id album))))
    (Sql.from2 (assets d) (albums_assets_assets d)).

Definition newThumbnail (d : Database) (album : AlbumEntity.t) : option string :=
  Sql.scalar
    (Sql.select
       (fun row : AssetEntity.t * AlbumsAssets.t => Some (assetsId (snd row)))
       (Sql.limit 1
          (Sql.order_by_desc
             (fun row : AssetEntity.t * AlbumsAssets.t =>
                AssetEntity.fileCreatedAt (fst row))
             (newThumbnailRows d album)))).

(** The statement [updateAlbums]:
      UPDATE albums SET albumThumbnailAssetId = (newThumbnail)
      WHERE (invalidThumbnail). *)
Definition updateAlbums (d : Database) : nat * Database :=
  let (n, rows) :=
    Sql.update
      (fun album => set_albumThumbnailAssetId (newThumbnail d album) album)
      (invalidThumbnail d)
      (albums d) in
  (n, mkDatabase rows (assets d) (albums_assets_assets d)).

(** [updateThumbnails]: run [updateAlbums] and hand back [result.affected].
    The subqueries are built on the module's [dataSource] here and on the
    injected one in [getInvalidThumbnail]; only their SQL text is used, which
    is the same. *)
Definition updateThumbnails : Promise (option nat) :=
  let* result := execute updateAlbums in
  resolve (affected result).

(** The counting query of [getAssetCountForIds]:
      SELECT album.id, COUNT(albums_assets.assetsId) AS asset_count
      FROM albums album
      LEFT JOIN albums_assets_assets albums_assets
             ON albums_assets.albumsId = album.id
      WHERE album.id IN (:...ids)
      GROUP BY album.id. *)
Definition countByAlbumsQuery (ids : list string) (d : Database)
  : list RawAlbumCount :=
  map
    (fun g : string * list (AlbumEntity.t * option AlbumsAssets.t) =>
       mkRawAlbumCount
         (fst g)
         (bigint_to_string
            (Sql.count
               (fun row : AlbumEntity.t * option AlbumsAssets.t =>
                  option_map assetsId (snd row))
               (snd g))))
    (Sql.group_by
       (fun row : AlbumEntity.t * option AlbumsAssets.t => id (fst row))
       (Sql.where_
          (fun row : AlbumEntity.t * option AlbumsAssets.t =>
             Sql.in_ (id (fst row)) ids)
          (Sql.left_join
             (fun album albums_assets =>
                Sql.eq (Some (albumsId albums_assets)) (Some (id album)))
             (albums d) (albums_assets_assets d)))).

(** [getAssetCountForIds]. *)
Definition getAssetCountForIds (ids : list string) : Promise (list AlbumAssetCount) :=
  (* Guard against running invalid query when ids list is empty. *)
  if Nat.eqb (List.length ids) 0 then resolve []
  else
    let* countByAlbums := query (countByAlbumsQuery ids) in
    resolve
      (map (fun albumCount =>
              mkAlbumAssetCount (album_id albumCount)
                                (Number (asset_count albumCount)))
           countByAlbums).

(** *** Finders

    The finders go through the ORM's find options.  The relations [owner],
    [sharedUsers] and [sharedLinks] that they load are left joins on tables
    the repository never writes; they neither drop nor add an album and are
    not part of the rows returned here. *)

(** The rows [getById] reads for the relation [assets] of one album:
      albums LEFT JOIN albums_assets_assets LEFT JOIN assets
      ORDER BY assets.fileCreatedAt DESC. *)
Definition assetsRows (d : Database) (album : AlbumEntity.t)
  : list ((AlbumEntity.t * option AlbumsAssets.t) * option AssetEntity.t) :=
  Sql.order_by_desc_nulls_first
    (fun row : (AlbumEntity.t * option AlbumsAssets.t) * option AssetEntity.t =>
       option_map AssetEntity.fileCreatedAt (snd row))
    (Sql.left_join
       (fun (row : AlbumEntity.t * option AlbumsAssets.t) asset =>
          Sql.eq (option_map assetsId (snd row)) (Some (AssetEntity.id asset)))
       (Sql.left_join
          (fun album albums_assets =>
             Sql.eq (Some (albumsId albums_assets)) (Some (id album)))
          [album] (albums_assets_assets d))
       (assets d)).

(** The asset entities built from those rows, in the order of the rows. *)
Definition hydrateAssets
           (rows : list ((AlbumEntity.t * option AlbumsAssets.t)
                         * option AssetEntity.t))
  : list AssetEntity.t :=
  flat_map (fun row => match snd row with Some asset => [asset] | None => [] end)
           rows.

(** [getById]: [findOne({ where: { id }, relations, order })], where
    [relations.assets] and [order.assets] are set only with
    [options.withAssets]. *)
Definition getById (id0 : string) (options : AlbumInfoOptions)
  : Promise (option AlbumWithAssets) :=
  query (fun d =>
           match Sql.where_
                   (fun album => Sql.eq (Some (id album)) (Some id0))
                   (albums d) with
           | [] => None
           | album :: _ =>
               Some (mkAlbumWithAssets
                       album
                       (if withAssets options
                        then Some (hydrateAssets (assetsRows d album))
                        else None))
           end).

(** [getByIds]: [find({ where: { id: In(ids) } })]. *)
Definition getByIds (ids : list string) : Promise (list AlbumEntity.t) :=
  query (fun d => Sql.where_ (fun album => Sql.in_ (id album) ids) (albums d)).

(** [getOwned]: [find({ where: { ownerId }, order: { createdAt: 'DESC' } })]. *)
Definition getOwned (ownerId0 : string) : Promise (list AlbumEntity.t) :=
  query (fun d =>
           Sql.order_by_desc createdAt
             (Sql.where_
                (fun album => Sql.eq (Some (ownerId album)) (Some ownerId0))
                (albums d))).

(** [getAll]: [find({ relations: { owner: true } })]. *)
Definition getAll : Promise (list AlbumEntity.t) :=
  query (fun d => albums d).

(** *** Writers *)

(** [deleteAll]: [repository.delete({ ownerId: userId })], that is
      DELETE FROM albums WHERE "ownerId" = :userId.
    The foreign key of the join table to [albums] is ON DELETE CASCADE in
    the schema (it is declared with the entities, which are not among the
    sources): the join rows of a deleted album are deleted with it. *)
Definition deleteAll (userId : string) : Promise unit :=
  let* _ := execute
              (fun d =>
                 let owned :=
                   fun album => Sql.eq (Some (ownerId album)) (Some userId) in
                 let (n, rows) := Sql.delete owned (albums d) in
                 (n,
                  mkDatabase
                    rows (assets d)
                    (Sql.on_delete_cascade
                       (fun albums_assets album =>
                          Sql.eq (Some (albumsId albums_assets))
                                 (Some (id album)))
                       (Sql.where_ owned (albums d))
                       (albums_assets_assets d)))) in
  resolve tt.

(** [removeAsset]:
      DELETE FROM albums_assets_assets
      WHERE "albums_assets_assets"."assetsId" = :assetId. *)
Definition removeAsset (assetId : string) : Promise unit :=
  let* _ := execute
              (fun d =>
                 let (n, rows) :=
                   Sql.delete
                     (fun albums_assets =>
                        Sql.eq (Some (assetsId albums_assets)) (Some assetId))
                     (albums_assets_assets d) in
                 (n, mkDatabase (albums d) (assets d) rows)) in
  resolve tt.

(** [hasAsset]: [exist({ where: { id, assets: { id: assetId } },
    relations: { assets: true } })], that is whether
      albums LEFT JOIN albums_assets_assets LEFT JOIN assets
      WHERE albums.id = :id AND assets.id = :assetId
    has a row. *)
Definition hasAsset (id0 : string) (assetId : string) : Promise bool :=
  query (fun d =>
           Sql.holds
             (Sql.exists_
                (Sql.where_
                   (fun row : (AlbumEntity.t * option AlbumsAssets.t)
                              * option AssetEntity.t =>
                      Sql.and
                        (Sql.eq (Some (id (fst (fst row)))) (Some id0))
                        (Sql.eq (option_map AssetEntity.id (snd row))
                                (Some assetId)))
                   (Sql.left_join
                      (fun (row : AlbumEntity.t * option AlbumsAssets.t) asset =>
                         Sql.eq (option_map assetsId (snd row))
                                (Some (AssetEntity.id asset)))
                      (Sql.left_join
                         (fun album albums_assets =>
                            Sql.eq (Some (albumsId albums_assets))
                                   (Some (id album)))
                         (albums d) (albums_assets_assets d))
                      (assets d))))).

End AlbumRepository.

(* ===================================================================== *)
(** ** Scenarios *)
(* ===================================================================== *)

Module Scenarios.

(** A reachable store whose driver reports affected rows. *)
Definition up (d : Database) : Store := mkStore true true 0 d.

(** A reachable store whose driver cannot report affected rows. *)
Definition silent (d : Database) : Store := mkStore true false 0 d.

(** A store that cannot be reached. *)
Definition down (d : Database) : Store := mkStore false true 0 d.

Definition album (i : string) (t : option string) : AlbumEntity.t :=
  AlbumEntity.mk i "owner" 0 t.

Definition a1 : AssetEntity.t := AssetEntity.mk "a1" 20230101.
Definition a2 : AssetEntity.t := AssetEntity.mk "a2" 20230601.
Definition a5 : AssetEntity.t := AssetEntity.mk "a5" 20230301.
Definition a7 : AssetEntity.t := AssetEntity.mk "a7" 20230401.
Definition a9 : AssetEntity.t := AssetEntity.mk "a9" 20230501.

(** Scenarios A to D of the specification in one store: album X has a1 and
    a2 and no thumbnail; album Y is empty with the stale thumbnail a5; album
    Z has a7 and the thumbnail a9; album W has a1 and the thumbnail a1. *)
Definition library : Database :=
  mkDatabase
    [album "X" None; album "Y" (Some "a5"); album "Z" (Some "a9");
     album "W" (Some "a1")]
    [a1; a2; a5; a7; a9]
    [AlbumsAssets.mk "X" "a1"; AlbumsAssets.mk "X" "a2";
     AlbumsAssets.mk "Z" "a7"; AlbumsAssets.mk "W" "a1"].

(** [library] after reconciliation. *)
Definition reconciled : Database :=
  mkDatabase
    [album "X" (Some "a2"); album "Y" None; album "Z" (Some "a7");
     album "W" (Some "a1")]
    (assets library)
    (albums_assets_assets library).

(** Two assets of one album created at the same instant, the asset rows
    kept in one order and in the other. *)
Definition b1 : AssetEntity.t := AssetEntity.mk "b1" 20230601.
Definition b2 : AssetEntity.t := AssetEntity.mk "b2" 20230601.

Definition tie12 : Database :=
  mkDatabase [album "T" None] [b1; b2]
             [AlbumsAssets.mk "T" "b1"; AlbumsAssets.mk "T" "b2"].

(** [library] with the rows of [assets] and of the join table kept in the
    opposite order. *)
Definition library_reversed : Database :=
  mkDatabase (albums library) (rev (assets library))
             (rev (albums_assets_assets library)).

Definition tie21 : Database :=
  mkDatabase [album "T" None] [b2; b1]
             [AlbumsAssets.mk "T" "b1"; AlbumsAssets.mk "T" "b2"].

(** Tables that break the foreign key: the join table names an asset that
    [assets] does not hold. *)
Definition dangling : Database :=
  mkDatabase [album "D" None] [] [AlbumsAssets.mk "D" "gone"].

(** Albums of two owners, created at different times; ann's album P has
    the thumbnail p1, which is also in bob's album R. *)
Definition p1 : AssetEntity.t := AssetEntity.mk "p1" 20240101.
Definition p2 : AssetEntity.t := AssetEntity.mk "p2" 20240301.

Definition shelf : Database :=
  mkDatabase
    [AlbumEntity.mk "P" "ann" 10 (Some "p1");
     AlbumEntity.mk "Q" "ann" 30 None;
     AlbumEntity.mk "R" "bob" 20 (Some "p2")]
    [p1; p2]
    [AlbumsAssets.mk "P" "p1"; AlbumsAssets.mk "P" "p2";
     AlbumsAssets.mk "R" "p1"; AlbumsAssets.mk "R" "p2"].

(** [shelf] after [removeAsset "p1"], and after the reconciliation that
    follows. *)
Definition shelf_without_p1 : Database :=
  mkDatabase (albums shelf) (assets shelf)
             [AlbumsAssets.mk "P" "p2"; AlbumsAssets.mk "R" "p2"].

Definition shelf_without_p1_reconciled : Database :=
  mkDatabase
    [AlbumEntity.mk "P" "ann" 10 (Some "p2");
     AlbumEntity.mk "Q" "ann" 30 None;
     AlbumEntity.mk "R" "bob" 20 (Some "p2")]
    (assets shelf)
    (albums_assets_assets shelf_without_p1).

Definition shelf_without_p2 : Database :=
  mkDatabase (albums shelf) (assets shelf)
             [AlbumsAssets.mk "P" "p1"; AlbumsAssets.mk "R" "p1"].

Definition shelf_without_members : Database :=
  mkDatabase (albums shelf) (assets shelf) [].

(** [shelf] after [deleteAll "ann"]: bob's album and its join rows. *)
Definition shelf_without_ann : Database :=
  mkDatabase [AlbumEntity.mk "R" "bob" 20 (Some "p2")]
             (assets shelf)
             [AlbumsAssets.mk "R" "p1"; AlbumsAssets.mk "R" "p2"].

(** Albums of two owners with invalid thumbnails on both sides: ann's album
    P points to p1, which is not in it; bob's album R has assets and no
    thumbnail. *)
Definition attic : Database :=
  mkDatabase
    [AlbumEntity.mk "P" "ann" 10 (Some "p1");
     AlbumEntity.mk "Q" "ann" 30 None;
     AlbumEntity.mk "R" "bob" 20 None]
    [p1; p2]
    [AlbumsAssets.mk "P" "p2"; AlbumsAssets.mk "R" "p1";
     AlbumsAssets.mk "R" "p2"].

(** [attic] after [deleteAll "ann"]. *)
Definition attic_without_ann : Database :=
  mkDatabase [AlbumEntity.mk "R" "bob" 20 None]
             (assets attic)
             [AlbumsAssets.mk "R" "p1"; AlbumsAssets.mk "R" "p2"].

End Scenarios.

(* ===================================================================== *)
(** ** The thumbnail invariant, in the words of the specification *)
(* ===================================================================== *)

Module Invariant.
Import AlbumEntity.

(** Asset [assetId] is a member of album [albumId]. *)
Definition member (d : Database) (albumId assetId : string) : Prop :=
  In (AlbumsAssets.mk albumId assetId) (albums_assets_assets d).

(** The album has at least one member asset. *)
Definition has_members (d : Database) (albumId : string) : Prop :=
  exists assetId, member d albumId assetId.

(** The invariant is violated: (a) the thumbnail is NULL but the album has
    at least one member asset, or (b) the thumbnail is not NULL but that
    asset is not a member of the album. *)
Definition violated (d : Database) (album : AlbumEntity.t) : Prop :=
  match albumThumbnailAssetId album with
  | None => has_members d (id album)
  | Some thumbnail => ~ member d (id album) thumbnail
  end.

(** The invariant holds: the thumbnail is NULL and the album has no member,
    or the thumbnail is a member of the album. *)
Definition satisfied (d : Database) (album : AlbumEntity.t) : Prop :=
  match albumThumbnailAssetId album with
  | None => ~ has_members d (id album)
  | Some thumbnail => member d (id album) thumbnail
  end.

(** [asset] is a member of the album and no member asset was created later. *)
Definition latest_member (d : Database) (album : AlbumEntity.t)
           (asset : AssetEntity.t) : Prop :=
  In asset (assets d) /\
  member d (id album) (AssetEntity.id asset) /\
  forall other,
    In other (assets d) ->
    member d (id album) (AssetEntity.id other) ->
    (AssetEntity.fileCreatedAt other <= AssetEntity.fileCreatedAt asset)%Z.

(** All the latest members of the album are one and the same asset. *)
Definition unique_latest (d : Database) (album : AlbumEntity.t) : Prop :=
  forall a1 a2,
    latest_member d album a1 -> latest_member d album a2 ->
    AssetEntity.id a1 = AssetEntity.id a2.

(** Two stores hold the same snapshot when each table has the same rows,
    whatever the order in which the rows are kept. *)
Definition same_snapshot (d1 d2 : Database) : Prop :=
  Permutation (albums d1) (albums d2) /\
  Permutation (assets d1) (assets d2) /\
  Permutation (albums_assets_assets d1) (albums_assets_assets d2).

(** The number of positions at which two versions of the album table carry
    different thumbnails. *)
Definition thumbnail_changed (p : AlbumEntity.t * AlbumEntity.t) : bool :=
  match albumThumbnailAssetId (fst p), albumThumbnailAssetId (snd p) with
  | None, None => false
  | Some x, Some y => negb (String.eqb x y)
  | _, _ => true
  end.

Definition changed_thumbnails (before after : list AlbumEntity.t) : nat :=
  List.length (filter thumbnail_changed (combine before after)).

(** The rows are in descending order of [key]. *)
Definition newest_first {A} (key : A -> Z) (rows : list A) : Prop :=
  StronglySorted (fun x y => (key y <= key x)%Z) rows.

End Invariant.

(** The foreign key of the join table: every row of [albums_assets_assets]
    points to a row of [assets] (membership relates albums to assets). *)
Definition referentialIntegrity (d : Database) : bool :=
  forallb
    (fun albums_assets =>
       existsb
         (fun asset =>
            String.eqb (AssetEntity.id asset) (AlbumsAssets.assetsId albums_assets))
         (assets d))
    (albums_assets_assets d).

(** The primary key of [albums]: no two rows share an id. *)
Definition albumsPrimaryKey (d : Database) : Prop :=
  NoDup (map AlbumEntity.id (albums d)).

(* ===================================================================== *)
(** ** Facts about the SQL fragments *)
(* ===================================================================== *)

Module SqlFacts.
Import Sql.

Lemma holds_eq (x y : string) :
  holds (eq (Some x) (Some y)) = true <-> x = y.
Proof.
  unfold holds, eq. destruct (String.eqb_spec x y); intuition congruence.
Qed.

Lemma holds_and (p q : cond) :
  holds (and p q) = true <-> holds p = true /\ holds q = true.
Proof.
  destruct p as [[|]|], q as [[|]|]; simpl; intuition congruence.
Qed.

Lemma holds_or (p q : cond) :
  holds (or p q) = true <-> holds p = true \/ holds q = true.
Proof.
  destruct p as [[|]|], q as [[|]|]; simpl; intuition congruence.
Qed.

Lemma holds_exists {A} (rows : list A) :
  holds (exists_ rows) = true <-> rows <> [].
Proof.
  destruct rows; simpl; intuition congruence.
Qed.

Lemma holds_not_exists {A} (rows : list A) :
  holds (not (exists_ rows)) = true <-> rows = [].
Proof.
  destruct rows; simpl; intuition congruence.
Qed.

Lemma holds_in (x : string) (vs : list string) :
  holds (in_ x vs) = true <-> In x vs.
Proof.
  unfold holds, in_. destruct (existsb (String.eqb x) vs) eqn:E.
  - apply existsb_exists in E as (y & Hy & Hxy).
    apply String.eqb_eq in Hxy. subst. tauto.
  - split; [discriminate|]. intros Hin.
    assert (existsb (String.eqb x) vs = true) as E'.
    { apply existsb_exists. exists x. split; [assumption|apply String.eqb_refl]. }
    congruence.
Qed.

Lemma in_where {A} (p : A -> cond) (rows : list A) (r : A) :
  In r (where_ p rows) <-> In r rows /\ holds (p r) = true.
Proof. apply filter_In. Qed.

Lemma where_nil {A} (p : A -> cond) (rows : list A) :
  where_ p rows = [] <-> forall r, In r rows -> holds (p r) = false.
Proof.
  unfold where_. induction rows as [|x rows IH]; simpl.
  - tauto.
  - destruct (holds (p x)) eqn:E.
    + split; [discriminate|]. intros H. specialize (H x (or_introl eq_refl)). congruence.
    + rewrite IH. split.
      * intros H r [<-|Hr]; auto.
      * intros H r Hr. apply H. now right.
Qed.

Lemma nonempty_in {A} (l : list A) : l <> [] <-> exists x, In x l.
Proof.
  destruct l as [|x l]; simpl.
  - split; [congruence|]. intros (x & []).
  - split; [eauto|discriminate].
Qed.

(** *** ORDER BY ... DESC *)

Section OrderBy.
Context {A : Type} (key : A -> Z).

Lemma in_insert_desc (x y : A) (l : list A) :
  In y (insert_desc key x l) <-> y = x \/ In y l.
Proof.
  induction l as [|z l IH]; simpl.
  - intuition.
  - destruct (key z <=? key x)%Z; simpl; [intuition|].
    rewrite IH. intuition.
Qed.

Lemma in_order_by_desc (y : A) (l : list A) :
  In y (order_by_desc key l) <-> In y l.
Proof.
  induction l as [|x l IH]; simpl; [tauto|].
  rewrite in_insert_desc, IH. intuition.
Qed.

Lemma insert_desc_head (x : A) (l : list A) :
  head_is_largest key l -> head_is_largest key (insert_desc key x l).
Proof.
  destruct l as [|z l]; simpl; [intros _ y []|].
  intros Hz. destruct (Z.leb_spec (key z) (key x)); simpl.
  - intros y [<-|Hy]; [assumption|]. specialize (Hz y Hy). lia.
  - intros y Hy. apply in_insert_desc in Hy as [->|Hy]; [lia|auto].
Qed.

Lemma order_by_desc_head (l : list A) :
  head_is_largest key (order_by_desc key l).
Proof.
  induction l as [|x l IH]; simpl; [exact I|].
  now apply insert_desc_head.
Qed.

(** [ORDER BY key DESC LIMIT 1] returns a row of the input with the largest
    key, and returns no row only for an empty input. *)
Lemma first_of_order_by_desc (l : list A) (x : A) (rest : list A) :
  order_by_desc key l = x :: rest ->
  In x l /\ forall y, In y l -> (key y <= key x)%Z.
Proof.
  intros E. split.
  - apply in_order_by_desc. rewrite E. now left.
  - intros y Hy. apply in_order_by_desc in Hy.
    pose proof (order_by_desc_head l) as H. rewrite E in *. simpl in H.
    destruct Hy as [<-|Hy]; [lia|auto].
Qed.

Lemma order_by_desc_nil (l : list A) : order_by_desc key l = [] <-> l = [].
Proof.
  split; [|now intros ->].
  destruct l as [|x l]; [reflexivity|]. intros E.
  assert (In x (order_by_desc key (x :: l))) as H
      by (apply in_order_by_desc; now left).
  rewrite E in H. destruct H.
Qed.

End OrderBy.

End SqlFacts.

(* ===================================================================== *)
(** ** Facts about the repository's queries *)
(* ===================================================================== *)

Module QueryFacts.
Import Sql SqlFacts AlbumRepository Invariant.
Import AlbumEntity AlbumsAssets.

Lemma albumHasAssets_iff (d : Database) (album : AlbumEntity.t) :
  albumHasAssets d album <> [] <-> has_members d (id album).
Proof.
  rewrite nonempty_in. unfold albumHasAssets, has_members, member. split.
  - intros ([a x] & H). apply in_where in H as [Hin Heq].
    apply holds_eq in Heq. simpl in Heq. subst a. now exists x.
  - intros (x & Hin). eexists. apply in_where. split; [exact Hin|].
    now apply holds_eq.
Qed.

Lemma albumContainsThumbnail_iff (d : Database) (album : AlbumEntity.t) t :
  albumThumbnailAssetId album = Some t ->
  albumContainsThumbnail d album <> [] <-> member d (id album) t.
Proof.
  intros Ht. rewrite nonempty_in. unfold albumContainsThumbnail, member. split.
  - intros ([a x] & H). apply in_where in H as [Hin Heq].
    rewrite Ht in Heq. apply holds_and in Heq as [H1 H2].
    apply holds_eq in H1, H2. simpl in H1, H2. now subst a x.
  - intros Hin. eexists. apply in_where. split; [exact Hin|].
    rewrite Ht. apply holds_and. split; now apply holds_eq.
Qed.

Lemma albumContainsThumbnail_null (d : Database) (album : AlbumEntity.t) :
  albumThumbnailAssetId album = None -> albumContainsThumbnail d album = [].
Proof.
  intros Ht. apply where_nil. intros r _. rewrite Ht.
  simpl. now destruct (String.eqb _ _).
Qed.

(** The WHERE clause is TRUE exactly on the albums that violate the
    invariant. *)
Lemma invalidThumbnail_violated (d : Database) (album : AlbumEntity.t) :
  holds (invalidThumbnail d album) = true <-> violated d album.
Proof.
  unfold invalidThumbnail, violated.
  rewrite holds_or, !holds_and, holds_exists, holds_not_exists.
  destruct (albumThumbnailAssetId album) as [t|] eqn:Ht; simpl.
  - rewrite <- (albumContainsThumbnail_iff d album t Ht).
    split.
    + intros [[? _]|[_ ->]]; [discriminate|tauto].
    + intros H. right. split; [reflexivity|].
      destruct (albumContainsThumbnail d album); [reflexivity|].
      exfalso. apply H. discriminate.
  - rewrite albumHasAssets_iff. split.
    + intros [[_ H]|[? _]]; [assumption|discriminate].
    + intros H. left. now split.
Qed.

Lemma member_dec (d : Database) (a x : string) :
  {member d a x} + {~ member d a x}.
Proof.
  unfold member. apply in_dec.
  intros [a1 x1] [a2 x2].
  destruct (string_dec a1 a2), (string_dec x1 x2); subst;
    (now left) || (right; congruence).
Qed.

Lemma has_members_dec (d : Database) (album : AlbumEntity.t) :
  {has_members d (id album)} + {~ has_members d (id album)}.
Proof.
  destruct (albumHasAssets d album) eqn:E.
  - right. rewrite <- albumHasAssets_iff. now rewrite E.
  - left. rewrite <- albumHasAssets_iff. now rewrite E.
Qed.

Lemma satisfied_not_violated (d : Database) (album : AlbumEntity.t) :
  satisfied d album <-> ~ violated d album.
Proof.
  unfold satisfied, violated.
  destruct (albumThumbnailAssetId album) as [t|]; [|tauto].
  destruct (member_dec d (id album) t); tauto.
Qed.

(** ... and is not TRUE exactly on the albums that satisfy it. *)
Lemma invalidThumbnail_satisfied (d : Database) (album : AlbumEntity.t) :
  holds (invalidThumbnail d album) = false <-> satisfied d album.
Proof.
  rewrite satisfied_not_violated, <- invalidThumbnail_violated.
  destruct (holds (invalidThumbnail d album)); intuition congruence.
Qed.

(** *** The subquery [newThumbnail] *)

Lemma in_newThumbnailRows (d : Database) (album : AlbumEntity.t) asset row :
  In (asset, row) (newThumbnailRows d album) <->
  In asset (assets d) /\ In row (albums_assets_assets d) /\
  assetsId row = AssetEntity.id asset /\ albumsId row = id album.
Proof.
  unfold newThumbnailRows, from2.
  rewrite in_where, in_prod_iff, holds_and, !holds_eq. tauto.
Qed.

Lemma newThumbnailRows_member (d : Database) (album : AlbumEntity.t) asset :
  (exists row, In (asset, row) (newThumbnailRows d album)) <->
  In asset (assets d) /\ member d (id album) (AssetEntity.id asset).
Proof.
  unfold member. split.
  - intros ([a x] & H). apply in_newThumbnailRows in H as (Ha & Hr & Hx & Hal).
    simpl in Hx, Hal. subst. tauto.
  - intros (Ha & Hr). eexists. apply in_newThumbnailRows. eauto.
Qed.

Lemma newThumbnail_unfold (d : Database) (album : AlbumEntity.t) :
  newThumbnail d album =
  match order_by_desc
          (fun row : AssetEntity.t * AlbumsAssets.t =>
             AssetEntity.fileCreatedAt (fst row))
          (newThumbnailRows d album) with
  | [] => None
  | row :: _ => Some (assetsId (snd row))
  end.
Proof.
  unfold newThumbnail, scalar, select, limit.
  now destruct (order_by_desc _ _).
Qed.

(** The subquery is NULL exactly when no asset row joins the album. *)
Lemma newThumbnail_null (d : Database) (album : AlbumEntity.t) :
  newThumbnail d album = None <-> newThumbnailRows d album = [].
Proof.
  rewrite newThumbnail_unfold.
  destruct (order_by_desc _ _) eqn:E.
  - apply order_by_desc_nil in E. tauto.
  - split; [discriminate|]. intros H. rewrite H in E. discriminate.
Qed.

(** Otherwise it is the id of a member asset that no member asset is later
    than. *)
Lemma newThumbnail_latest (d : Database) (album : AlbumEntity.t) (x : string) :
  newThumbnail d album = Some x ->
  exists asset, latest_member d album asset /\ AssetEntity.id asset = x.
Proof.
  rewrite newThumbnail_unfold.
  destruct (order_by_desc _ _) as [|[asset row] rest] eqn:E; [discriminate|].
  intros [= <-]. apply first_of_order_by_desc in E as [Hin Hmax].
  pose proof Hin as Hin'.
  apply in_newThumbnailRows in Hin' as (Ha & Hr & Hx & Hal).
  exists asset. simpl. split; [|easy].
  split; [assumption|]. split.
  - apply newThumbnailRows_member. eauto.
  - intros other Ho Hm.
    destruct (proj2 (newThumbnailRows_member d album other) (conj Ho Hm))
      as (row' & Hrow').
    exact (Hmax _ Hrow').
Qed.

(** *** The foreign key *)

Lemma referentialIntegrity_iff (d : Database) :
  referentialIntegrity d = true <->
  forall row, In row (albums_assets_assets d) ->
              exists asset, In asset (assets d) /\
                            AssetEntity.id asset = assetsId row.
Proof.
  unfold referentialIntegrity. rewrite forallb_forall.
  split; intros H row Hrow; specialize (H row Hrow).
  - apply existsb_exists in H as (asset & Ha & Heq).
    apply String.eqb_eq in Heq. eauto.
  - destruct H as (asset & Ha & Heq). apply existsb_exists.
    exists asset. split; [assumption|]. now apply String.eqb_eq.
Qed.

(** Under the foreign key an album with a member always gets a thumbnail. *)
Lemma newThumbnail_not_null (d : Database) (album : AlbumEntity.t) :
  referentialIntegrity d = true ->
  has_members d (id album) ->
  exists x, newThumbnail d album = Some x.
Proof.
  intros Hfk (x & Hx).
  destruct (newThumbnail d album) as [y|] eqn:E; [eauto|exfalso].
  apply newThumbnail_null in E.
  destruct (proj1 (referentialIntegrity_iff d) Hfk _ Hx) as (asset & Ha & Heq).
  simpl in Heq.
  assert (In (asset, AlbumsAssets.mk (id album) x) (newThumbnailRows d album)) as H.
  { apply in_newThumbnailRows. simpl. auto. }
  rewrite E in H. destruct H.
Qed.

(** A new thumbnail is a member of the album. *)
Lemma newThumbnail_member (d : Database) (album : AlbumEntity.t) (x : string) :
  newThumbnail d album = Some x -> member d (id album) x.
Proof.
  intros H. apply newThumbnail_latest in H as (asset & (_ & Hm & _) & <-).
  exact Hm.
Qed.

End QueryFacts.

(* ===================================================================== *)
(** ** Facts about the statements and the promises *)
(* ===================================================================== *)

Module StatementFacts.
Import Sql SqlFacts AlbumRepository Invariant QueryFacts.
Import AlbumEntity AlbumsAssets.

(** The conditions look at the join table only. *)
Lemma invalidThumbnail_ext (d d' : Database) (album : AlbumEntity.t) :
  albums_assets_assets d' = albums_assets_assets d ->
  invalidThumbnail d' album = invalidThumbnail d album.
Proof.
  intros E. unfold invalidThumbnail, albumHasAssets, albumContainsThumbnail.
  now rewrite E.
Qed.

Lemma updateAlbums_count (d : Database) :
  fst (updateAlbums d) = List.length (where_ (invalidThumbnail d) (albums d)).
Proof. reflexivity. Qed.

Lemma updateAlbums_albums (d : Database) :
  albums (snd (updateAlbums d)) =
  map (fun album =>
         if holds (invalidThumbnail d album)
         then set_albumThumbnailAssetId (newThumbnail d album) album
         else album)
      (albums d).
Proof. reflexivity. Qed.

Lemma updateAlbums_assets (d : Database) :
  assets (snd (updateAlbums d)) = assets d.
Proof. reflexivity. Qed.

Lemma updateAlbums_albums_assets (d : Database) :
  albums_assets_assets (snd (updateAlbums d)) = albums_assets_assets d.
Proof. reflexivity. Qed.

(** Row [i] after the UPDATE, from row [i] before it. *)
Lemma updateAlbums_row (d : Database) (i : nat) (album : AlbumEntity.t) :
  nth_error (albums d) i = Some album ->
  nth_error (albums (snd (updateAlbums d))) i =
  Some (if holds (invalidThumbnail d album)
        then set_albumThumbnailAssetId (newThumbnail d album) album
        else album).
Proof.
  intros H. rewrite updateAlbums_albums, nth_error_map, H. reflexivity.
Qed.

(** A row the UPDATE has written satisfies the invariant. *)
Lemma rewritten_satisfied (d : Database) (album : AlbumEntity.t) :
  referentialIntegrity d = true ->
  satisfied d (set_albumThumbnailAssetId (newThumbnail d album) album).
Proof.
  intros Hfk. unfold satisfied. simpl.
  destruct (newThumbnail d album) as [x|] eqn:E.
  - now apply newThumbnail_member.
  - intros Hm. destruct (newThumbnail_not_null d album Hfk Hm) as (x & Hx).
    congruence.
Qed.

(** After the UPDATE the WHERE clause selects no album. *)
Lemma updateAlbums_restores (d : Database) :
  referentialIntegrity d = true ->
  where_ (invalidThumbnail (snd (updateAlbums d)))
         (albums (snd (updateAlbums d))) = [].
Proof.
  intros Hfk. apply where_nil. intros album' Hin.
  rewrite (invalidThumbnail_ext d) by apply updateAlbums_albums_assets.
  rewrite updateAlbums_albums in Hin.
  apply in_map_iff in Hin as (album & <- & _).
  apply invalidThumbnail_satisfied.
  destruct (holds (invalidThumbnail d album)) eqn:E.
  - now apply rewritten_satisfied.
  - now apply invalidThumbnail_satisfied.
Qed.

(** *** Promises *)

Lemma updateThumbnails_reachable (s : Store) :
  reachable s = true ->
  updateThumbnails s =
  (inr (if reportsAffected s
        then Some (fst (updateAlbums (database s))) else None),
   mkStore true (reportsAffected s) (S (issued s))
           (snd (updateAlbums (database s)))).
Proof.
  intros Hr. unfold updateThumbnails, await, execute, statement, resolve.
  rewrite Hr. destruct (updateAlbums (database s)) as [n d']. reflexivity.
Qed.

Lemma updateThumbnails_unreachable (s : Store) :
  reachable s = false ->
  updateThumbnails s = (inl StoreUnavailable, s).
Proof.
  intros Hr. unfold updateThumbnails, await, execute, statement.
  now rewrite Hr.
Qed.

Lemma updateThumbnails_resolved (s s' : Store) (r : option nat) :
  updateThumbnails s = (inr r, s') ->
  reachable s = true /\
  r = (if reportsAffected s
       then Some (fst (updateAlbums (database s))) else None) /\
  database s' = snd (updateAlbums (database s)) /\
  reachable s' = true /\ reportsAffected s' = reportsAffected s.
Proof.
  destruct (reachable s) eqn:Hr.
  - rewrite (updateThumbnails_reachable s Hr). intros [= <- <-]. simpl. tauto.
  - rewrite (updateThumbnails_unreachable s Hr). discriminate.
Qed.

Lemma getInvalidThumbnail_reachable (s : Store) :
  reachable s = true ->
  getInvalidThumbnail s =
  (inr (map id (where_ (invalidThumbnail (database s)) (albums (database s)))),
   mkStore true (reportsAffected s) (S (issued s)) (database s)).
Proof.
  intros Hr. unfold getInvalidThumbnail, await, query, statement, resolve.
  now rewrite Hr.
Qed.

(** *** An UPDATE that hits nothing *)

(** An UPDATE whose WHERE clause selects no row leaves the table as it is. *)
Lemma update_nothing {A} (set : A -> A) (p : A -> cond) (rows : list A) :
  where_ p rows = [] -> Sql.update set p rows = (0, rows).
Proof.
  intros H. unfold Sql.update. rewrite H. simpl. f_equal.
  rewrite <- (map_id rows) at 2. apply map_ext_in.
  intros r Hr. now rewrite (proj1 (where_nil _ _) H r Hr).
Qed.

Lemma updateAlbums_nothing (d : Database) :
  where_ (invalidThumbnail d) (albums d) = [] -> updateAlbums d = (0, d).
Proof.
  intros H. unfold updateAlbums. rewrite (update_nothing _ _ _ H).
  now destruct d.
Qed.

(** *** Rows hit and thumbnails changed *)

(** Under the foreign key the UPDATE changes the thumbnail of exactly the
    rows it hits. *)
Lemma hit_iff_changed (d : Database) (album : AlbumEntity.t) :
  referentialIntegrity d = true ->
  thumbnail_changed
    (album,
     if holds (invalidThumbnail d album)
     then AlbumEntity.set_albumThumbnailAssetId (newThumbnail d album) album
     else album)
  = holds (invalidThumbnail d album).
Proof.
  intros Hfk. unfold thumbnail_changed.
  destruct (holds (invalidThumbnail d album)) eqn:E; simpl.
  - apply invalidThumbnail_violated in E. unfold violated in E.
    destruct (AlbumEntity.albumThumbnailAssetId album) as [t|].
    + destruct (newThumbnail d album) as [x|] eqn:N; [|reflexivity].
      apply newThumbnail_member in N.
      destruct (String.eqb_spec t x); [subst; tauto|reflexivity].
    + destruct (newThumbnail_not_null d album Hfk E) as (x & ->). reflexivity.
  - destruct (AlbumEntity.albumThumbnailAssetId album); [|reflexivity].
    now rewrite String.eqb_refl.
Qed.

Lemma affected_is_changed (d : Database) :
  referentialIntegrity d = true ->
  fst (updateAlbums d) =
  changed_thumbnails (albums d) (albums (snd (updateAlbums d))).
Proof.
  intros Hfk. rewrite updateAlbums_count, updateAlbums_albums.
  unfold changed_thumbnails, where_.
  induction (albums d) as [|album rows IH]; [reflexivity|].
  cbn [map combine filter]. rewrite (hit_iff_changed d album Hfk).
  destruct (holds (invalidThumbnail d album)); simpl; now rewrite IH.
Qed.

(** *** The same rows in another order *)

Lemma same_snapshot_rows (d1 d2 : Database) (album : AlbumEntity.t) row :
  same_snapshot d1 d2 ->
  In row (newThumbnailRows d1 album) -> In row (newThumbnailRows d2 album).
Proof.
  intros (_ & Ha & Hm). destruct row as [asset r].
  rewrite !in_newThumbnailRows. intros (H1 & H2 & H3).
  split; [exact (Permutation_in _ Ha H1)|].
  split; [exact (Permutation_in _ Hm H2)|assumption].
Qed.

Lemma same_snapshot_sym (d1 d2 : Database) :
  same_snapshot d1 d2 -> same_snapshot d2 d1.
Proof.
  intros (H1 & H2 & H3). repeat split; now apply Permutation_sym.
Qed.

Lemma same_snapshot_latest (d1 d2 : Database) (album : AlbumEntity.t) asset :
  same_snapshot d1 d2 ->
  latest_member d2 album asset -> latest_member d1 album asset.
Proof.
  intros Hs (Hin & Hm & Hmax).
  pose proof Hs as (_ & Ha & Hj). unfold latest_member, member in *.
  split; [exact (Permutation_in _ (Permutation_sym Ha) Hin)|].
  split; [exact (Permutation_in _ (Permutation_sym Hj) Hm)|].
  intros other Ho Hom. apply Hmax.
  - exact (Permutation_in _ Ha Ho).
  - exact (Permutation_in _ Hj Hom).
Qed.

(** Without ties among the latest members the subquery does not depend on
    the order of the rows. *)
Lemma newThumbnail_same_snapshot (d1 d2 : Database) (album : AlbumEntity.t) :
  same_snapshot d1 d2 ->
  unique_latest d1 album ->
  newThumbnail d1 album = newThumbnail d2 album.
Proof.
  intros Hs Huniq.
  destruct (newThumbnail d1 album) as [x|] eqn:E1,
           (newThumbnail d2 album) as [y|] eqn:E2.
  - apply newThumbnail_latest in E1 as (a1 & L1 & <-).
    apply newThumbnail_latest in E2 as (a2 & L2 & <-).
    f_equal. apply Huniq; [assumption|].
    now apply (same_snapshot_latest d1 d2).
  - exfalso. apply newThumbnail_null in E2.
    rewrite newThumbnail_unfold in E1.
    destruct (order_by_desc _ _) as [|row rest] eqn:E; [discriminate|].
    apply first_of_order_by_desc in E as [Hin _].
    apply (same_snapshot_rows d1 d2 album row Hs) in Hin.
    rewrite E2 in Hin. destruct Hin.
  - exfalso. apply newThumbnail_null in E1.
    rewrite newThumbnail_unfold in E2.
    destruct (order_by_desc _ _) as [|row rest] eqn:E; [discriminate|].
    apply first_of_order_by_desc in E as [Hin _].
    apply (same_snapshot_rows d2 d1 album row (same_snapshot_sym _ _ Hs)) in Hin.
    rewrite E1 in Hin. destruct Hin.
  - reflexivity.
Qed.

Lemma same_snapshot_violated (d1 d2 : Database) (album : AlbumEntity.t) :
  same_snapshot d1 d2 -> violated d1 album -> violated d2 album.
Proof.
  intros (_ & _ & Hj). unfold violated, has_members, member.
  destruct (albumThumbnailAssetId album) as [t|].
  - intros Hn Hin. apply Hn. exact (Permutation_in _ (Permutation_sym Hj) Hin).
  - intros (x & Hx). exists x. exact (Permutation_in _ Hj Hx).
Qed.

(** The WHERE clause does not depend on the order of the rows. *)
Lemma invalidThumbnail_same_snapshot (d1 d2 : Database) (album : AlbumEntity.t) :
  same_snapshot d1 d2 ->
  holds (invalidThumbnail d1 album) = holds (invalidThumbnail d2 album).
Proof.
  intros Hs.
  destruct (holds (invalidThumbnail d1 album)) eqn:E1,
           (holds (invalidThumbnail d2 album)) eqn:E2; try reflexivity.
  - apply invalidThumbnail_violated in E1.
    apply (same_snapshot_violated d1 d2 album Hs) in E1.
    apply invalidThumbnail_violated in E1. congruence.
  - apply invalidThumbnail_violated in E2.
    apply (same_snapshot_violated d2 d1 album (same_snapshot_sym _ _ Hs)) in E2.
    apply invalidThumbnail_violated in E2. congruence.
Qed.

(** Dropping a row that a filter rejects does not change what it keeps. *)
Lemma filter_without_row {A} (f : A -> bool) (l : list A) (i : nat) (x : A) :
  nth_error l i = Some x -> f x = false ->
  filter f (firstn i l ++ skipn (S i) l) = filter f l.
Proof.
  revert l. induction i as [|i IH]; intros [|y l] Hi Hx; try discriminate.
  - injection Hi as ->. cbn [firstn skipn app filter]. now rewrite Hx.
  - cbn [firstn skipn app filter nth_error] in *. now rewrite (IH l Hi Hx).
Qed.

End StatementFacts.

(* ===================================================================== *)
(** ** Counting the assets of albums *)
(* ===================================================================== *)

Module CountFacts.
Import Sql SqlFacts AlbumRepository Invariant.
Import AlbumEntity AlbumsAssets.

(** *** [Number] reads back what the driver prints *)

Lemma to_uint_not_nil (n : nat) : Nat.to_uint n <> Decimal.Nil.
Proof.
  intros H. pose proof (Unsigned.of_to n) as E. rewrite H in E.
  simpl in E. subst n. discriminate H.
Qed.

Lemma Number_bigint (n : nat) : Number (bigint_to_string n) = Finite n.
Proof.
  unfold Number, bigint_to_string.
  rewrite (NilZero.usu _ (to_uint_not_nil n)).
  now rewrite Unsigned.of_to.
Qed.

(** *** LEFT JOIN and GROUP BY *)

Section Join.
Context {A B : Type} (on : A -> B -> cond) (t2 : list B).

Lemma in_left_join_row (a a' : A) (m : option B) :
  In (a', m) (left_join_row on t2 a) <->
  a' = a /\
  match m with
  | Some b => In b t2 /\ holds (on a b) = true
  | None => where_ (on a) t2 = []
  end.
Proof.
  unfold left_join_row.
  destruct (where_ (on a) t2) as [|b0 ps] eqn:E.
  - simpl. split.
    + intros [[= <- <-]|[]]. auto.
    + intros [-> Hm]. destruct m as [b|]; [|auto].
      exfalso. assert (In b (where_ (on a) t2)) as H by now apply in_where.
      rewrite E in H. destruct H.
  - rewrite in_map_iff. split.
    + intros (b & [= <- <-] & Hb). rewrite <- E in Hb.
      apply in_where in Hb. auto.
    + intros [-> Hm]. destruct m as [b|]; [|discriminate].
      exists b. split; [reflexivity|]. rewrite <- E. now apply in_where.
Qed.

Lemma in_left_join (t1 : list A) (a : A) (m : option B) :
  In (a, m) (left_join on t1 t2) <->
  In a t1 /\
  match m with
  | Some b => In b t2 /\ holds (on a b) = true
  | None => where_ (on a) t2 = []
  end.
Proof.
  unfold left_join. rewrite in_flat_map. split.
  - intros (a0 & Ha0 & H). apply in_left_join_row in H as [-> H]. auto.
  - intros [Ha H]. exists a. split; [assumption|].
    now apply in_left_join_row.
Qed.

(** Every row of the left table survives the join. *)
Lemma left_join_keeps (t1 : list A) (a : A) :
  In a t1 -> exists m, In (a, m) (left_join on t1 t2).
Proof.
  intros Ha. destruct (where_ (on a) t2) as [|b ps] eqn:E.
  - exists None. now apply in_left_join.
  - exists (Some b). apply in_left_join. split; [assumption|].
    apply in_where. rewrite E. now left.
Qed.

End Join.

Lemma group_by_keys {A} (key : A -> string) (rows : list A) :
  map fst (group_by key rows) = nodup string_dec (map key rows).
Proof.
  unfold group_by. rewrite map_map. simpl. apply map_id.
Qed.

Lemma in_group_by {A} (key : A -> string) (rows : list A) k g :
  In (k, g) (group_by key rows) ->
  g = filter (fun r => String.eqb (key r) k) rows.
Proof.
  unfold group_by. rewrite in_map_iff. now intros (k' & [= <- <-] & _).
Qed.

Lemma count_none {A B} (expr : A -> option B) (rows : list A) :
  (forall r, In r rows -> expr r = None) -> count expr rows = 0.
Proof.
  unfold count. induction rows as [|r rows IH]; [reflexivity|].
  intros H. simpl. rewrite (H r (or_introl eq_refl)).
  apply IH. intros r' Hr'. apply H. now right.
Qed.

Lemma count_app {A B} (expr : A -> option B) (l l' : list A) :
  count expr (l ++ l') = count expr l + count expr l'.
Proof. unfold count. now rewrite filter_app, length_app. Qed.

Lemma count_some {A B} (f : A -> option B) (rows : list A) :
  (forall r, In r rows -> f r <> None) -> count f rows = List.length rows.
Proof.
  unfold count. induction rows as [|r rows IH]; [reflexivity|].
  intros H. simpl. destruct (f r) eqn:E.
  - simpl. f_equal. apply IH. intros r' Hr'. apply H. now right.
  - exfalso. apply (H r); [now left|assumption].
Qed.

Lemma filter_all {A} (f : A -> bool) (l : list A) :
  (forall x, In x l -> f x = true) -> filter f l = l.
Proof.
  induction l as [|x l IH]; [reflexivity|]. intros H. simpl.
  rewrite (H x (or_introl eq_refl)). f_equal. apply IH.
  intros y Hy. apply H. now right.
Qed.

Lemma filter_none {A} (f : A -> bool) (l : list A) :
  (forall x, In x l -> f x = false) -> filter f l = [].
Proof.
  induction l as [|x l IH]; [reflexivity|]. intros H. simpl.
  rewrite (H x (or_introl eq_refl)). apply IH.
  intros y Hy. apply H. now right.
Qed.

(** *** The counting query *)

(** The rows the query groups: the left join, restricted to the requested
    ids. *)
#[warnings="-notation-for-abbreviation"]
Local Notation joined ids d :=
  (where_
     (fun row : AlbumEntity.t * option AlbumsAssets.t =>
        in_ (id (fst row)) ids)
     (left_join
        (fun album albums_assets =>
           Sql.eq (Some (albumsId albums_assets)) (Some (id album)))
        (albums d) (albums_assets_assets d))).

#[warnings="-notation-for-abbreviation"]
Local Notation album_key :=
  (fun row : AlbumEntity.t * option AlbumsAssets.t => id (fst row)).

#[warnings="-notation-for-abbreviation"]
Local Notation counted :=
  (fun row : AlbumEntity.t * option AlbumsAssets.t =>
     option_map assetsId (snd row)).

Lemma in_joined (ids : list string) (d : Database) album m :
  In (album, m) (joined ids d) <->
  In album (albums d) /\ In (id album) ids /\
  match m with
  | Some row => In row (albums_assets_assets d) /\ albumsId row = id album
  | None => forall row, In row (albums_assets_assets d) ->
                        albumsId row <> id album
  end.
Proof.
  rewrite in_where, in_left_join, holds_in. cbn [fst].
  destruct m as [row|].
  - rewrite holds_eq. tauto.
  - rewrite where_nil. split.
    + intros ((Ha & Hn) & Hi). repeat split; try assumption.
      intros row Hrow Heq. specialize (Hn row Hrow).
      apply holds_eq in Heq. congruence.
    + intros (Ha & Hi & Hn). repeat split; try assumption.
      intros row Hrow. specialize (Hn row Hrow).
      destruct (holds _) eqn:E; [|reflexivity].
      apply holds_eq in E. contradiction.
Qed.

Lemma joined_keys (ids : list string) (d : Database) (k : string) :
  In k (map album_key (joined ids d)) <->
  In k ids /\ In k (map id (albums d)).
Proof.
  rewrite !in_map_iff. split.
  - intros ([album m] & <- & H). apply in_joined in H as (Ha & Hi & _).
    simpl. split; [assumption|]. now exists album.
  - intros (Hi & album & <- & Ha).
    destruct (left_join_keeps
                (fun album albums_assets =>
                   Sql.eq (Some (albumsId albums_assets)) (Some (id album)))
                (albums_assets_assets d) (albums d) album Ha) as (m & Hm).
    exists (album, m). split; [reflexivity|].
    apply in_where. split; [assumption|]. now apply holds_in.
Qed.

(** An album without members contributes only NULLs to [COUNT]. *)
Lemma count_no_members (ids : list string) (d : Database) (k : string) :
  ~ has_members d k ->
  count counted (filter (fun r => String.eqb (album_key r) k) (joined ids d)) = 0.
Proof.
  intros Hno. apply count_none. intros [album m] H.
  apply filter_In in H as [H Hk]. apply String.eqb_eq in Hk. simpl in Hk.
  apply in_joined in H as (_ & _ & Hm).
  destruct m as [[a x]|]; [|reflexivity].
  exfalso. apply Hno. destruct Hm as [Hin Heq]. simpl in Heq.
  exists x. unfold member. congruence.
Qed.

(** [COUNT] over the group of key [k]: every album row with that id brings
    the join rows of the album. *)
Lemma count_group (ids : list string) (j : list AlbumsAssets.t) (k : string)
      (l : list AlbumEntity.t) :
  In k ids ->
  count counted
        (filter (fun r => String.eqb (album_key r) k)
                (joined ids (mkDatabase l [] j)))
  = List.length (filter (fun album => String.eqb (id album) k) l)
    * List.length (filter (fun row => String.eqb (albumsId row) k) j).
Proof.
  intros Hk. cbn [albums albums_assets_assets].
  induction l as [|album l IH]; [reflexivity|].
  unfold left_join in *. cbn [flat_map]. unfold where_ in *.
  rewrite !filter_app, count_app, IH. clear IH.
  cbn [filter]. destruct (String.eqb_spec (id album) k) as [E|E].
  - cbn [List.length Nat.mul]. f_equal.
    rewrite (filter_all
               (fun r : AlbumEntity.t * option AlbumsAssets.t =>
                  holds (in_ (id (fst r)) ids))).
    2:{ intros [a m] H. apply in_left_join_row in H as [-> _].
        apply holds_in. simpl. now rewrite E. }
    rewrite (filter_all (fun r => String.eqb (album_key r) k)).
    2:{ intros [a m] H. apply in_left_join_row in H as [-> _].
        simpl. now apply String.eqb_eq. }
    unfold left_join_row, where_.
    rewrite (filter_ext _ (fun row => String.eqb (albumsId row) k)).
    + destruct (filter _ j) as [|row ps]; [reflexivity|].
      rewrite count_some, length_map; [reflexivity|].
      intros r Hr. apply in_map_iff in Hr as (b & <- & _). discriminate.
    + intros row. rewrite <- E. simpl. now destruct (String.eqb _ _).
  - rewrite (filter_none (fun r => String.eqb (album_key r) k)); [reflexivity|].
    intros [a m] H. apply filter_In in H as [H _].
    apply in_left_join_row in H as [-> _]. simpl. now apply String.eqb_neq.
Qed.

Lemma one_row_per_key (l : list AlbumEntity.t) (k : string) :
  NoDup (map id l) -> In k (map id l) ->
  List.length (filter (fun album => String.eqb (id album) k) l) = 1.
Proof.
  induction l as [|album l IH]; [intros _ []|].
  cbn [map filter]. intros Hnd Hin. apply NoDup_cons_iff in Hnd as [Hnot Hnd].
  destruct (String.eqb_spec (id album) k) as [E|E].
  - rewrite filter_none; [reflexivity|].
    intros a Ha. apply String.eqb_neq. intros Ea. apply Hnot.
    rewrite E, <- Ea. now apply in_map.
  - apply IH; [assumption|]. destruct Hin; [contradiction|assumption].
Qed.

(** The entries [getAssetCountForIds] builds from the raw rows. *)
#[warnings="-notation-for-abbreviation"]
Local Notation entries ids d :=
  (map (fun albumCount =>
          mkAlbumAssetCount (album_id albumCount)
                            (Number (asset_count albumCount)))
       (countByAlbumsQuery ids d)).

Lemma entries_ids (ids : list string) (d : Database) :
  map albumId (entries ids d)
  = nodup string_dec (map album_key (joined ids d)).
Proof.
  unfold countByAlbumsQuery. rewrite !map_map. cbn [albumId album_id].
  apply group_by_keys.
Qed.

Lemma in_entries (ids : list string) (d : Database) (c : AlbumAssetCount) :
  In c (entries ids d) ->
  In (albumId c) ids /\
  assetCount c
  = Finite (count counted
                  (filter (fun r => String.eqb (album_key r) (albumId c))
                          (joined ids d))).
Proof.
  intros H. assert (In (albumId c) (map albumId (entries ids d))) as Hid
      by now apply in_map.
  rewrite entries_ids, nodup_In, joined_keys in Hid. split; [tauto|].
  unfold countByAlbumsQuery in H. rewrite map_map in H.
  apply in_map_iff in H as ([k g] & <- & Hg).
  apply in_group_by in Hg. cbn [album_id asset_count assetCount albumId fst snd].
  now rewrite Number_bigint, Hg.
Qed.

Lemma getAssetCountForIds_reachable (ids : list string) (s : Store) :
  ids <> [] -> reachable s = true ->
  getAssetCountForIds ids s =
  (inr (entries ids (database s)),
   mkStore true (reportsAffected s) (S (issued s)) (database s)).
Proof.
  intros Hne Hr. unfold getAssetCountForIds.
  destruct ids as [|i ids]; [congruence|]. cbn [List.length Nat.eqb].
  unfold await, query, statement, resolve. now rewrite Hr.
Qed.

End CountFacts.

(* ===================================================================== *)
(** ** The scenarios of the specification *)
(* ===================================================================== *)

Module ScenarioFacts.
Import AlbumRepository Invariant Scenarios.

Example scenarios_reconciled :
  updateThumbnails (up library) = (inr (Some 3), mkStore true true 1 reconciled).
Proof. reflexivity. Qed.

Example scenarios_invalid :
  fst (getInvalidThumbnail (up library)) = inr ["X"; "Y"; "Z"].
Proof. reflexivity. Qed.

Example scenarios_counts :
  fst (getAssetCountForIds ["X"; "Y"; "nope"] (up library)) =
  inr [mkAlbumAssetCount "X" (Finite 2); mkAlbumAssetCount "Y" (Finite 0)].
Proof. reflexivity. Qed.

(** The foreign key cannot be dropped from the results below: on [dangling]
    the UPDATE hits album D, finds no asset row to join and writes NULL over
    NULL, so the album stays invalid and the row hit did not change. *)
Example dangling_stays_invalid :
  referentialIntegrity dangling = false /\
  updateThumbnails (up dangling) = (inr (Some 1), mkStore true true 1 dangling) /\
  fst (getInvalidThumbnail (mkStore true true 1 dangling)) = inr ["D"].
Proof. repeat split. Qed.

Lemma library_X_violated : violated library (album "X" None).
Proof. exists "a1". unfold member. simpl. auto. Defined.

Lemma library_W_satisfied : satisfied library (album "W" (Some "a1")).
Proof. unfold satisfied, member. simpl. tauto. Defined.

Lemma library_X_latest (asset : AssetEntity.t) :
  latest_member library (album "X" None) asset -> AssetEntity.id asset = "a2".
Proof.
  intros (Hin & Hm & Hmax).
  assert (AssetEntity.fileCreatedAt a2 <= AssetEntity.fileCreatedAt asset)%Z
    as Hle.
  { apply Hmax; unfold member; simpl; auto. }
  unfold member in Hm. simpl in Hin, Hm, Hle.
  destruct Hin as [<-|[<-|[<-|[<-|[<-|[]]]]]]; simpl in *;
    try reflexivity; try lia;
    repeat (destruct Hm as [Hm|Hm]; try discriminate Hm); destruct Hm.
Defined.

Lemma library_X_unique_latest : unique_latest library (album "X" None).
Proof.
  intros x y Hx Hy.
  rewrite (library_X_latest x Hx), (library_X_latest y Hy). reflexivity.
Defined.

Lemma library_reversed_same : same_snapshot library library_reversed.
Proof.
  split; [apply Permutation_refl|]. split; apply Permutation_rev.
Defined.

Lemma library_primary_key : albumsPrimaryKey library.
Proof.
  unfold albumsPrimaryKey. simpl.
  repeat constructor; simpl; intuition discriminate.
Defined.

Lemma shelf_primary_key : albumsPrimaryKey shelf.
Proof.
  unfold albumsPrimaryKey. simpl.
  repeat constructor; simpl; intuition discriminate.
Defined.

Lemma shelf_join_rows_unique : NoDup (albums_assets_assets shelf).
Proof.
  simpl. repeat constructor; simpl; intuition discriminate.
Defined.

Lemma attic_primary_key : albumsPrimaryKey attic.
Proof.
  unfold albumsPrimaryKey. simpl.
  repeat constructor; simpl; intuition discriminate.
Defined.

End ScenarioFacts.

(* ===================================================================== *)
(** ** Properties of the repository *)
(* ===================================================================== *)

Import Sql SqlFacts AlbumRepository Invariant.
Import QueryFacts StatementFacts CountFacts.
Import Scenarios ScenarioFacts.

(** C1 (invariant restoration).  Under the join table's foreign key, once
    [updateThumbnails] has resolved, [getInvalidThumbnail] resolves to the
    empty list: every album of the resulting store satisfies the thumbnail
    invariant, so no album is left with a NULL thumbnail and a member asset,
    nor with a thumbnail that is not one of its members. *)
Theorem updateThumbnails_restores_invariant (s s' : Store) (n : option nat) :
  referentialIntegrity (database s) = true ->
  updateThumbnails s = (inr n, s') ->
  (exists s'', getInvalidThumbnail s' = (inr [], s'')) /\
  (forall album, In album (albums (database s')) ->
                 satisfied (database s') album).
Proof.
  intros Hfk Hrun.
  apply updateThumbnails_resolved in Hrun as (_ & _ & Hd & Hr & _).
  pose proof (updateAlbums_restores (database s) Hfk) as Hnone.
  rewrite <- Hd in Hnone. split.
  - eexists. rewrite (getInvalidThumbnail_reachable s' Hr), Hnone. reflexivity.
  - intros album Hin. apply invalidThumbnail_satisfied.
    exact (proj1 (where_nil _ _) Hnone album Hin).
Qed.

Lemma updateThumbnails_restores_invariant_witness :
  referentialIntegrity library = true /\
  updateThumbnails (up library) = (inr (Some 3), mkStore true true 1 reconciled) /\
  (exists s'', getInvalidThumbnail (mkStore true true 1 reconciled) = (inr [], s'')) /\
  (forall album, In album (albums reconciled) -> satisfied reconciled album).
Proof.
  split; [reflexivity|]. split; [reflexivity|].
  exact (updateThumbnails_restores_invariant
           (up library) (mkStore true true 1 reconciled) (Some 3)
           eq_refl eq_refl).
Defined.

(** C2 (exactness of the check).  On a reachable store [getInvalidThumbnail]
    resolves, reads only, and its result holds exactly the ids of the albums
    that violate the invariant: NULL thumbnail with at least one member
    asset, or a thumbnail that is not a member of the album. *)
Theorem getInvalidThumbnail_exact (s : Store) :
  reachable s = true ->
  exists found s',
    getInvalidThumbnail s = (inr found, s') /\
    database s' = database s /\
    forall i, In i found <->
              exists album, In album (albums (database s)) /\
                            AlbumEntity.id album = i /\
                            violated (database s) album.
Proof.
  intros Hr. do 2 eexists.
  split; [apply (getInvalidThumbnail_reachable s Hr)|].
  split; [reflexivity|].
  intros i. rewrite in_map_iff. split.
  - intros (album & <- & Hin). apply in_where in Hin as [Hin Hv].
    exists album. rewrite <- invalidThumbnail_violated. tauto.
  - intros (album & Hin & <- & Hv). exists album.
    split; [reflexivity|]. apply in_where.
    rewrite invalidThumbnail_violated. tauto.
Qed.

Lemma getInvalidThumbnail_exact_witness :
  reachable (up library) = true /\
  exists found s',
    getInvalidThumbnail (up library) = (inr found, s') /\
    database s' = library /\
    forall i, In i found <->
              exists album, In album (albums library) /\
                            AlbumEntity.id album = i /\
                            violated library album.
Proof.
  split; [reflexivity|].
  exact (getInvalidThumbnail_exact (up library) eq_refl).
Defined.

(** C3 (what the correction writes).  Under the foreign key, an album that
    violates the invariant keeps its place in the table and gets as its
    thumbnail the id of a member asset with the largest [fileCreatedAt]
    among the album's members, or NULL when the album has no member. *)
Theorem updateThumbnails_sets_latest_member
        (s s' : Store) (n : option nat) (i : nat) (album : AlbumEntity.t) :
  referentialIntegrity (database s) = true ->
  updateThumbnails s = (inr n, s') ->
  nth_error (albums (database s)) i = Some album ->
  violated (database s) album ->
  exists v,
    nth_error (albums (database s')) i =
      Some (AlbumEntity.set_albumThumbnailAssetId v album) /\
    match v with
    | Some x => exists asset, latest_member (database s) album asset /\
                              AssetEntity.id asset = x
    | None => ~ has_members (database s) (AlbumEntity.id album)
    end.
Proof.
  intros Hfk Hrun Hi Hv.
  apply updateThumbnails_resolved in Hrun as (_ & _ & Hd & _).
  exists (newThumbnail (database s) album). split.
  - rewrite Hd, (updateAlbums_row _ _ _ Hi).
    now rewrite (proj2 (invalidThumbnail_violated _ _) Hv).
  - destruct (newThumbnail (database s) album) as [x|] eqn:E.
    + now apply newThumbnail_latest.
    + intros Hm. destruct (newThumbnail_not_null _ _ Hfk Hm). congruence.
Qed.

Lemma updateThumbnails_sets_latest_member_witness :
  referentialIntegrity library = true /\
  updateThumbnails (up library) = (inr (Some 3), mkStore true true 1 reconciled) /\
  nth_error (albums library) 0 = Some (album "X" None) /\
  violated library (album "X" None) /\
  exists v,
    nth_error (albums reconciled) 0 =
      Some (AlbumEntity.set_albumThumbnailAssetId v (album "X" None)) /\
    match v with
    | Some x => exists asset, latest_member library (album "X" None) asset /\
                              AssetEntity.id asset = x
    | None => ~ has_members library "X"
    end.
Proof.
  split; [reflexivity|]. split; [reflexivity|]. split; [reflexivity|].
  split; [exact library_X_violated|].
  exact (updateThumbnails_sets_latest_member
           (up library) (mkStore true true 1 reconciled) (Some 3) 0
           (album "X" None) eq_refl eq_refl eq_refl library_X_violated).
Defined.

(** C4 (idempotence).  Under the foreign key, a second [updateThumbnails]
    right after a first one hits no row: its affected count is zero (or
    undefined when the driver reports none) and the tables stay as the first
    run left them. *)
Theorem updateThumbnails_idempotent (s s1 s2 : Store) (n1 n2 : option nat) :
  referentialIntegrity (database s) = true ->
  updateThumbnails s = (inr n1, s1) ->
  updateThumbnails s1 = (inr n2, s2) ->
  fst (updateAlbums (database s1)) = 0 /\
  n2 = (if reportsAffected s then Some 0 else None) /\
  database s2 = database s1.
Proof.
  intros Hfk H1 H2.
  apply updateThumbnails_resolved in H1 as (_ & _ & Hd1 & _ & Hrep).
  apply updateThumbnails_resolved in H2 as (_ & Hn2 & Hd2 & _).
  pose proof (updateAlbums_restores (database s) Hfk) as Hnone.
  rewrite <- Hd1 in Hnone. apply updateAlbums_nothing in Hnone.
  rewrite Hnone in Hn2, Hd2. rewrite Hnone, <- Hrep. simpl in *. auto.
Qed.

Lemma updateThumbnails_idempotent_witness :
  referentialIntegrity library = true /\
  updateThumbnails (up library) = (inr (Some 3), mkStore true true 1 reconciled) /\
  updateThumbnails (mkStore true true 1 reconciled)
    = (inr (Some 0), mkStore true true 2 reconciled) /\
  fst (updateAlbums reconciled) = 0 /\
  Some 0 = Some 0 /\
  reconciled = reconciled.
Proof.
  split; [reflexivity|]. split; [reflexivity|]. split; [reflexivity|].
  exact (updateThumbnails_idempotent
           (up library) (mkStore true true 1 reconciled)
           (mkStore true true 2 reconciled) (Some 3) (Some 0)
           eq_refl eq_refl eq_refl).
Defined.

(** C5 (no over-correction).  An album that satisfies the invariant is left
    as it is by [updateThumbnails] and is not counted: the resolved count is
    the number of rows that the UPDATE hits, these are the rows of the table
    that violate the invariant, this album is not one of them, and the count
    is what it would be for the table without this album's row. *)
Theorem updateThumbnails_no_over_correction
        (s s' : Store) (n : option nat) (i : nat) (album : AlbumEntity.t) :
  updateThumbnails s = (inr n, s') ->
  nth_error (albums (database s)) i = Some album ->
  satisfied (database s) album ->
  nth_error (albums (database s')) i = Some album /\
  exists corrected,
    corrected = where_ (invalidThumbnail (database s)) (albums (database s)) /\
    n = (if reportsAffected s then Some (List.length corrected) else None) /\
    ~ In album corrected /\
    (forall other, In other corrected <->
                   In other (albums (database s)) /\ violated (database s) other) /\
    List.length corrected
    = List.length
        (where_ (invalidThumbnail (database s))
                (firstn i (albums (database s))
                 ++ skipn (S i) (albums (database s)))).
Proof.
  intros Hrun Hi Hsat.
  apply updateThumbnails_resolved in Hrun as (_ & Hn & Hd & _).
  apply invalidThumbnail_satisfied in Hsat. split.
  - now rewrite Hd, (updateAlbums_row _ _ _ Hi), Hsat.
  - eexists. split; [reflexivity|].
    split; [exact Hn|]. split; [|split].
    + rewrite in_where. intros [_ H]. congruence.
    + intros other. rewrite in_where, invalidThumbnail_violated. reflexivity.
    + unfold where_. now rewrite (filter_without_row _ _ _ _ Hi Hsat).
Qed.

Lemma updateThumbnails_no_over_correction_witness :
  updateThumbnails (up library) = (inr (Some 3), mkStore true true 1 reconciled) /\
  nth_error (albums library) 3 = Some (album "W" (Some "a1")) /\
  satisfied library (album "W" (Some "a1")) /\
  nth_error (albums reconciled) 3 = Some (album "W" (Some "a1")) /\
  exists corrected,
    corrected = [album "X" None; album "Y" (Some "a5"); album "Z" (Some "a9")] /\
    Some 3 = Some (List.length corrected) /\
    ~ In (album "W" (Some "a1")) corrected /\
    (forall other, In other corrected <->
                   In other (albums library) /\ violated library other) /\
    List.length corrected
    = List.length
        (where_ (invalidThumbnail library)
                [album "X" None; album "Y" (Some "a5"); album "Z" (Some "a9")]).
Proof.
  split; [reflexivity|]. split; [reflexivity|].
  split; [exact library_W_satisfied|].
  exact (updateThumbnails_no_over_correction
           (up library) (mkStore true true 1 reconciled) (Some 3) 3
           (album "W" (Some "a1")) eq_refl eq_refl library_W_satisfied).
Defined.

(** C6 (frame).  Whatever its outcome, [updateThumbnails] leaves [assets]
    and the join table as they are, keeps every album row in its place with
    its [id], [ownerId] and [createdAt], and leaves a row untouched unless
    the album violates the invariant. *)
Theorem updateThumbnails_frame (s : Store) :
  let d := database s in
  let d' := database (snd (updateThumbnails s)) in
  assets d' = assets d /\
  albums_assets_assets d' = albums_assets_assets d /\
  List.length (albums d') = List.length (albums d) /\
  forall i album album',
    nth_error (albums d) i = Some album ->
    nth_error (albums d') i = Some album' ->
    AlbumEntity.id album' = AlbumEntity.id album /\
    AlbumEntity.ownerId album' = AlbumEntity.ownerId album /\
    AlbumEntity.createdAt album' = AlbumEntity.createdAt album /\
    (album' <> album -> violated d album).
Proof.
  destruct (reachable s) eqn:Hr; cbv zeta.
  - rewrite (updateThumbnails_reachable s Hr). cbn [snd database].
    split; [apply updateAlbums_assets|].
    split; [apply updateAlbums_albums_assets|].
    split; [rewrite updateAlbums_albums; apply length_map|].
    intros i album album' Hi Hi'.
    rewrite (updateAlbums_row _ _ _ Hi) in Hi'. injection Hi' as <-.
    destruct (holds (invalidThumbnail (database s) album)) eqn:E.
    + apply invalidThumbnail_violated in E. simpl. tauto.
    + tauto.
  - rewrite (updateThumbnails_unreachable s Hr). simpl.
    repeat split; congruence.
Qed.

Lemma updateThumbnails_frame_witness :
  assets reconciled = assets library /\
  albums_assets_assets reconciled = albums_assets_assets library /\
  AlbumEntity.id (album "X" (Some "a2")) = "X" /\
  AlbumEntity.ownerId (album "X" (Some "a2")) = "owner" /\
  AlbumEntity.createdAt (album "X" (Some "a2")) = 0%Z /\
  (album "X" (Some "a2") <> album "X" None -> violated library (album "X" None)).
Proof.
  destruct (updateThumbnails_frame (up library)) as (Ha & Hm & _ & Hrow).
  split; [exact Ha|]. split; [exact Hm|].
  exact (Hrow 0 (album "X" None) (album "X" (Some "a2")) eq_refl eq_refl).
Defined.

(** C7 (result).  On a reachable store and under the foreign key,
    [updateThumbnails] resolves to the number of albums whose thumbnail
    changed when the driver reports affected rows, and to undefined when it
    does not; undefined is returned in no other case, so it is never
    mistaken for a count of zero. *)
Theorem updateThumbnails_result (s : Store) :
  reachable s = true ->
  referentialIntegrity (database s) = true ->
  exists r s',
    updateThumbnails s = (inr r, s') /\
    r = (if reportsAffected s
         then Some (changed_thumbnails (albums (database s))
                                       (albums (database s')))
         else None) /\
    (r = None <-> reportsAffected s = false) /\
    (r = Some 0 <->
     reportsAffected s = true /\
     changed_thumbnails (albums (database s)) (albums (database s')) = 0).
Proof.
  intros Hr Hfk. do 2 eexists.
  split; [apply (updateThumbnails_reachable s Hr)|].
  cbn [database]. rewrite <- (affected_is_changed _ Hfk).
  destruct (reportsAffected s); repeat split; try congruence.
  all: intros; try discriminate; intuition congruence.
Qed.

Lemma updateThumbnails_result_witness :
  reachable (silent reconciled) = true /\
  referentialIntegrity reconciled = true /\
  exists r s',
    updateThumbnails (silent reconciled) = (inr r, s') /\
    r = None /\
    (r = None <-> false = false) /\
    (r = Some 0 <->
     false = true /\
     changed_thumbnails (albums reconciled) (albums (database s')) = 0).
Proof.
  split; [reflexivity|]. split; [reflexivity|].
  exact (updateThumbnails_result (silent reconciled) eq_refl eq_refl).
Defined.

(** C8 (failure).  On an unreachable store [updateThumbnails] rejects with
    [StoreUnavailable] and the store is left exactly as it was: no album
    row, and nothing else, has been written. *)
Theorem updateThumbnails_unavailable (s : Store) :
  reachable s = false ->
  updateThumbnails s = (inl StoreUnavailable, s) /\
  albums (database (snd (updateThumbnails s))) = albums (database s).
Proof.
  intros Hr. rewrite (updateThumbnails_unreachable s Hr). now split.
Qed.

Lemma updateThumbnails_unavailable_witness :
  reachable (down library) = false /\
  updateThumbnails (down library) = (inl StoreUnavailable, down library) /\
  albums (database (snd (updateThumbnails (down library)))) = albums library.
Proof.
  split; [reflexivity|].
  exact (updateThumbnails_unavailable (down library) eq_refl).
Defined.

(** Counterexample to the tie-break being fixed by the snapshot: [tie12] and
    [tie21] hold the same rows, the two asset rows in opposite orders, and
    both assets of album T were created at the same instant; album T gets b1
    in the one store and b2 in the other. *)
Lemma tie_break_follows_row_order :
  same_snapshot tie12 tie21 /\
  updateThumbnails (up tie12)
    = (inr (Some 1),
       mkStore true true 1
               (mkDatabase [album "T" (Some "b1")] (assets tie12)
                           (albums_assets_assets tie12))) /\
  updateThumbnails (up tie21)
    = (inr (Some 1),
       mkStore true true 1
               (mkDatabase [album "T" (Some "b2")] (assets tie21)
                           (albums_assets_assets tie21))).
Proof.
  split; [|split; reflexivity].
  split; [apply Permutation_refl|].
  split; [apply perm_swap|apply Permutation_refl].
Qed.

(** C9, amended (deterministic choice without ties).  When all the latest
    members of an album are one and the same asset, the thumbnail that
    [updateThumbnails] selects for the album is the same in every store that
    holds the same rows, in whatever order they are kept, and so is the
    album's row after the run. *)
Theorem updateThumbnails_deterministic_without_ties
        (s1 s2 : Store) (album : AlbumEntity.t) (i1 i2 : nat) :
  same_snapshot (database s1) (database s2) ->
  unique_latest (database s1) album ->
  reachable s1 = true -> reachable s2 = true ->
  nth_error (albums (database s1)) i1 = Some album ->
  nth_error (albums (database s2)) i2 = Some album ->
  newThumbnail (database s1) album = newThumbnail (database s2) album /\
  nth_error (albums (database (snd (updateThumbnails s1)))) i1
  = nth_error (albums (database (snd (updateThumbnails s2)))) i2.
Proof.
  intros Hs Huniq Hr1 Hr2 Hi1 Hi2.
  pose proof (newThumbnail_same_snapshot _ _ album Hs Huniq) as Hnew.
  split; [exact Hnew|].
  rewrite (updateThumbnails_reachable s1 Hr1), (updateThumbnails_reachable s2 Hr2).
  cbn [snd database].
  rewrite (updateAlbums_row _ _ _ Hi1), (updateAlbums_row _ _ _ Hi2).
  now rewrite Hnew, (invalidThumbnail_same_snapshot _ _ album Hs).
Qed.

Lemma updateThumbnails_deterministic_without_ties_witness :
  same_snapshot library library_reversed /\
  unique_latest library (album "X" None) /\
  newThumbnail library (album "X" None)
    = newThumbnail library_reversed (album "X" None) /\
  nth_error (albums (database (snd (updateThumbnails (up library))))) 0
  = nth_error
      (albums (database (snd (updateThumbnails (up library_reversed))))) 0.
Proof.
  split; [exact library_reversed_same|].
  split; [exact library_X_unique_latest|].
  exact (updateThumbnails_deterministic_without_ties
           (up library) (up library_reversed) (album "X" None) 0 0
           library_reversed_same library_X_unique_latest
           eq_refl eq_refl eq_refl eq_refl).
Defined.

(** C10 (asset counts).  For the empty list [getAssetCountForIds] resolves
    to the empty list and sends no statement, reachable store or not.  For a
    non-empty list on a reachable store it sends one statement and resolves
    to one entry for each requested id that some album of the store carries:
    no id occurs twice, an album without member assets is reported with the
    count 0 and, album ids being unique, every album with the number of its
    rows in the join table. *)
Theorem getAssetCountForIds_entries (ids : list string) (s : Store) :
  (ids = [] -> getAssetCountForIds ids s = (inr [], s)) /\
  (ids <> [] -> reachable s = true ->
   exists counts,
     getAssetCountForIds ids s =
       (inr counts,
        mkStore true (reportsAffected s) (S (issued s)) (database s)) /\
     NoDup (map albumId counts) /\
     (forall i, In i (map albumId counts) <->
                In i ids /\ In i (map AlbumEntity.id (albums (database s)))) /\
     (forall c, In c counts ->
                ~ has_members (database s) (albumId c) ->
                assetCount c = Finite 0) /\
     (albumsPrimaryKey (database s) ->
      forall c, In c counts ->
                assetCount c =
                Finite (List.length
                          (filter (fun row =>
                                     String.eqb (AlbumsAssets.albumsId row)
                                                (albumId c))
                                  (albums_assets_assets (database s)))))).
Proof.
  split; [intros ->; reflexivity|].
  intros Hne Hr. eexists.
  split; [apply (getAssetCountForIds_reachable ids s Hne Hr)|].
  split; [rewrite entries_ids; apply NoDup_nodup|].
  split; [intros i; rewrite entries_ids, nodup_In; apply joined_keys|].
  split.
  - intros c Hc Hno. apply in_entries in Hc as [_ ->].
    now rewrite count_no_members.
  - intros Hpk c Hc.
    assert (In (albumId c) (map AlbumEntity.id (albums (database s)))) as Hin.
    { apply (in_map albumId) in Hc.
      rewrite entries_ids, nodup_In, joined_keys in Hc. tauto. }
    apply in_entries in Hc as [Hid ->]. f_equal.
    etransitivity.
    { exact (count_group ids (albums_assets_assets (database s)) (albumId c)
                         (albums (database s)) Hid). }
    rewrite (one_row_per_key _ _ Hpk Hin). apply Nat.mul_1_l.
Qed.

Lemma getAssetCountForIds_entries_witness :
  getAssetCountForIds [] (down library) = (inr [], down library) /\
  exists counts,
    getAssetCountForIds ["X"; "Y"; "nope"] (up library) =
      (inr counts, mkStore true true 1 library) /\
    NoDup (map albumId counts) /\
    (forall i, In i (map albumId counts) <->
               In i ["X"; "Y"; "nope"] /\
               In i (map AlbumEntity.id (albums library))).
Proof.
  split.
  - exact (proj1 (getAssetCountForIds_entries [] (down library)) eq_refl).
  - destruct (proj2 (getAssetCountForIds_entries ["X"; "Y"; "nope"] (up library))
                    ltac:(discriminate) eq_refl)
      as (counts & H1 & H2 & H3 & _).
    exists counts. auto.
Defined.

(* ===================================================================== *)
(** ** Facts about ORDER BY and DELETE *)
(* ===================================================================== *)

Module OrderFacts.
Import Sql SqlFacts Invariant.

Section Sorting.
Context {A : Type} (key : A -> Z).

Lemma insert_desc_newest_first (x : A) (l : list A) :
  newest_first key l -> newest_first key (insert_desc key x l).
Proof.
  unfold newest_first.
  induction l as [|z l IH]; intros H; simpl.
  - constructor; constructor.
  - apply StronglySorted_inv in H as [Hl Hz].
    destruct (Z.leb_spec (key z) (key x)).
    + constructor; [now constructor|].
      constructor; [assumption|].
      eapply Forall_impl; [|exact Hz]. simpl. intros; lia.
    + constructor; [now apply IH|].
      apply Forall_forall. intros y Hy.
      apply in_insert_desc in Hy as [->|Hy]; [lia|].
      exact (proj1 (Forall_forall _ _) Hz y Hy).
Qed.

Lemma order_by_desc_newest_first (l : list A) :
  newest_first key (order_by_desc key l).
Proof.
  induction l as [|x l IH]; simpl.
  - constructor.
  - now apply insert_desc_newest_first.
Qed.

Lemma insert_desc_perm (x : A) (l : list A) :
  Permutation (insert_desc key x l) (x :: l).
Proof.
  induction l as [|z l IH]; simpl; [reflexivity|].
  destruct (key z <=? key x)%Z; [reflexivity|].
  rewrite IH. apply perm_swap.
Qed.

Lemma order_by_desc_perm (l : list A) :
  Permutation (order_by_desc key l) l.
Proof.
  induction l as [|x l IH]; simpl; [reflexivity|].
  rewrite insert_desc_perm. now constructor.
Qed.

End Sorting.

Lemma in_delete {A} (p : A -> cond) (rows : list A) (r : A) :
  In r (snd (delete p rows)) <-> In r rows /\ holds (p r) = false.
Proof.
  unfold delete. simpl. rewrite filter_In.
  destruct (holds (p r)); simpl; intuition congruence.
Qed.

Lemma filter_comm {A} (f g : A -> bool) (l : list A) :
  filter f (filter g l) = filter g (filter f l).
Proof.
  induction l as [|x l IH]; [reflexivity|]. simpl.
  destruct (f x) eqn:Ef, (g x) eqn:Eg; simpl; rewrite ?Ef, ?Eg, IH; reflexivity.
Qed.

Lemma filter_idem {A} (f : A -> bool) (l : list A) :
  filter f (filter f l) = filter f l.
Proof.
  induction l as [|x l IH]; [reflexivity|]. simpl.
  destruct (f x) eqn:Ef; simpl; rewrite ?Ef, IH; reflexivity.
Qed.

End OrderFacts.

(* ===================================================================== *)
(** ** Facts about the writers *)
(* ===================================================================== *)

Module WriterFacts.
Import Sql SqlFacts AlbumRepository Invariant QueryFacts StatementFacts.
Import OrderFacts.
Import AlbumEntity AlbumsAssets.

(** The tables after [removeAsset]. *)
Lemma removeAsset_reachable (assetId : string) (s : Store) :
  reachable s = true ->
  removeAsset assetId s =
  (inr tt,
   mkStore true (reportsAffected s) (S (issued s))
     (mkDatabase
        (albums (database s)) (assets (database s))
        (filter (fun row => negb (String.eqb (assetsId row) assetId))
                (albums_assets_assets (database s))))).
Proof.
  intros Hr. unfold removeAsset, await, execute, statement, resolve, delete.
  rewrite Hr. cbn [fst snd].
  rewrite (filter_ext _ (fun row => negb (String.eqb (assetsId row) assetId)));
    [reflexivity|].
  intros row. simpl. now destruct (String.eqb _ _).
Qed.

Lemma removeAsset_resolved (assetId : string) (s s' : Store) :
  removeAsset assetId s = (inr tt, s') ->
  reachable s = true /\ reachable s' = true /\
  reportsAffected s' = reportsAffected s /\
  database s' =
  mkDatabase
    (albums (database s)) (assets (database s))
    (filter (fun row => negb (String.eqb (assetsId row) assetId))
            (albums_assets_assets (database s))).
Proof.
  destruct (reachable s) eqn:Hr.
  - rewrite (removeAsset_reachable assetId s Hr). intros [= <-]. simpl. tauto.
  - unfold removeAsset, await, execute, statement. rewrite Hr. discriminate.
Qed.

Lemma member_after_removeAsset (assetId : string) (s s' : Store) x y :
  removeAsset assetId s = (inr tt, s') ->
  member (database s') x y <-> member (database s) x y /\ y <> assetId.
Proof.
  intros H. apply removeAsset_resolved in H as (_ & _ & _ & ->).
  unfold member. cbn [albums_assets_assets]. rewrite filter_In. simpl.
  destruct (String.eqb_spec y assetId); simpl; intuition congruence.
Qed.

Lemma referentialIntegrity_after_removeAsset (assetId : string) (s s' : Store) :
  removeAsset assetId s = (inr tt, s') ->
  referentialIntegrity (database s) = true ->
  referentialIntegrity (database s') = true.
Proof.
  intros H Hfk. apply removeAsset_resolved in H as (_ & _ & _ & ->).
  rewrite referentialIntegrity_iff in *. cbn [albums_assets_assets assets].
  intros row Hrow. apply filter_In in Hrow as [Hrow _]. now apply Hfk.
Qed.

(** The join rows that the cascade of [deleteAll userId] keeps. *)
#[warnings="-notation-for-abbreviation"]
Local Notation kept_join_rows userId d :=
  (on_delete_cascade
     (fun albums_assets album =>
        Sql.eq (Some (albumsId albums_assets)) (Some (id album)))
     (where_ (fun album => Sql.eq (Some (ownerId album)) (Some userId))
             (albums d))
     (albums_assets_assets d)).

Lemma in_kept_join_rows (userId : string) (d : Database) (row : AlbumsAssets.t) :
  In row (kept_join_rows userId d) <->
  In row (albums_assets_assets d) /\
  forall album, In album (albums d) -> ownerId album = userId ->
                id album <> albumsId row.
Proof.
  unfold on_delete_cascade. rewrite filter_In, negb_true_iff.
  split; intros [Hrow H]; (split; [assumption|]).
  - intros album Hal Ho Hid.
    assert (holds (exists_
                     (where_ (fun album =>
                                Sql.eq (Some (albumsId row)) (Some (id album)))
                             (where_ (fun album =>
                                        Sql.eq (Some (ownerId album))
                                               (Some userId))
                                     (albums d)))) = true) as E.
    { apply holds_exists, nonempty_in. exists album.
      apply in_where. split; [apply in_where; split|].
      - assumption.
      - now apply holds_eq.
      - now apply holds_eq. }
    congruence.
  - destruct (holds _) eqn:E; [exfalso|reflexivity].
    apply holds_exists, nonempty_in in E as (album & Hin).
    apply in_where in Hin as [Hin Hid]. apply in_where in Hin as [Hin Ho].
    apply holds_eq in Hid, Ho. exact (H album Hin Ho (eq_sym Hid)).
Qed.

(** The tables after [deleteAll]. *)
Lemma deleteAll_reachable (userId : string) (s : Store) :
  reachable s = true ->
  deleteAll userId s =
  (inr tt,
   mkStore true (reportsAffected s) (S (issued s))
     (mkDatabase
        (filter (fun album => negb (String.eqb (ownerId album) userId))
                (albums (database s)))
        (assets (database s))
        (kept_join_rows userId (database s)))).
Proof.
  intros Hr. unfold deleteAll, await, execute, statement, resolve, delete.
  rewrite Hr. cbn [fst snd].
  rewrite (filter_ext _ (fun album => negb (String.eqb (ownerId album) userId)));
    [reflexivity|].
  intros row. simpl. now destruct (String.eqb _ _).
Qed.

Lemma deleteAll_resolved (userId : string) (s s' : Store) :
  deleteAll userId s = (inr tt, s') ->
  reachable s = true /\ reachable s' = true /\
  reportsAffected s' = reportsAffected s /\
  database s' =
  mkDatabase
    (filter (fun album => negb (String.eqb (ownerId album) userId))
            (albums (database s)))
    (assets (database s))
    (kept_join_rows userId (database s)).
Proof.
  destruct (reachable s) eqn:Hr.
  - rewrite (deleteAll_reachable userId s Hr). intros [= <-]. simpl. tauto.
  - unfold deleteAll, await, execute, statement. rewrite Hr. discriminate.
Qed.

(** Album ids being unique, two rows of [albums] with one id are one row. *)
Lemma primary_key_row (d : Database) (a b : AlbumEntity.t) :
  albumsPrimaryKey d ->
  In a (albums d) -> In b (albums d) -> id a = id b -> a = b.
Proof.
  unfold albumsPrimaryKey. induction (albums d) as [|x l IH]; [intros _ []|].
  cbn [map]. intros Hnd Ha Hb E. apply NoDup_cons_iff in Hnd as [Hx Hnd].
  destruct Ha as [<-|Ha], Hb as [<-|Hb].
  - reflexivity.
  - exfalso. apply Hx. rewrite E. now apply in_map.
  - exfalso. apply Hx. rewrite <- E. now apply in_map.
  - now apply IH.
Qed.

(** Album ids being unique, [deleteAll] leaves the members of the albums it
    keeps as they are. *)
Lemma member_after_deleteAll (userId : string) (s s' : Store)
      (album : AlbumEntity.t) (x : string) :
  albumsPrimaryKey (database s) ->
  deleteAll userId s = (inr tt, s') ->
  In album (albums (database s)) -> ownerId album <> userId ->
  member (database s') (id album) x <-> member (database s) (id album) x.
Proof.
  intros Hpk Hdel Hin Ho.
  apply deleteAll_resolved in Hdel as (_ & _ & _ & ->).
  unfold member. cbn [albums_assets_assets]. rewrite in_kept_join_rows.
  split; [tauto|]. intros Hrow. split; [assumption|].
  intros gone Hgone Hog Hid. cbn [albumsId] in Hid.
  apply (primary_key_row _ _ _ Hpk Hgone Hin) in Hid. congruence.
Qed.

End WriterFacts.

(* ===================================================================== *)
(** ** Facts about the finders *)
(* ===================================================================== *)

Module FinderFacts.
Import Sql SqlFacts AlbumRepository Invariant QueryFacts StatementFacts.
Import CountFacts OrderFacts.
Import AlbumEntity AlbumsAssets.

Lemma holds_eq_some (o : option string) (y : string) :
  holds (eq o (Some y)) = true <-> o = Some y.
Proof.
  destruct o as [x|]; simpl.
  - destruct (String.eqb_spec x y); intuition congruence.
  - intuition congruence.
Qed.

(** The rows of albums LEFT JOIN albums_assets_assets LEFT JOIN assets. *)
#[warnings="-notation-for-abbreviation"]
Local Notation album_asset_rows l j t :=
  (left_join
     (fun (row : AlbumEntity.t * option AlbumsAssets.t) asset =>
        Sql.eq (option_map assetsId (snd row)) (Some (AssetEntity.id asset)))
     (left_join
        (fun album albums_assets =>
           Sql.eq (Some (albumsId albums_assets)) (Some (id album)))
        l j)
     t).

(** A row of the double join that carries an asset: the album, one of its
    join rows and the asset the join row names. *)
Lemma in_album_asset_rows_some
      (l : list AlbumEntity.t) (j : list AlbumsAssets.t)
      (t : list AssetEntity.t) album m asset :
  In ((album, m), Some asset) (album_asset_rows l j t) <->
  In album l /\ In asset t /\
  In (AlbumsAssets.mk (id album) (AssetEntity.id asset)) j /\
  m = Some (AlbumsAssets.mk (id album) (AssetEntity.id asset)).
Proof.
  rewrite in_left_join, in_left_join. cbn [snd]. rewrite holds_eq_some.
  destruct m as [[a x]|]; cbn [option_map assetsId albumsId].
  - rewrite holds_eq. split.
    + intros ((Hal & Hj & <-) & Ht & [= ->]). auto.
    + intros (Hal & Ht & Hj & [= -> ->]). auto.
  - split.
    + intros (_ & _ & [=]).
    + intros (_ & _ & _ & [=]).
Qed.

Lemma album_asset_rows_assets
      (l : list AlbumEntity.t) (j : list AlbumsAssets.t)
      (t : list AssetEntity.t) album asset :
  (exists m, In ((album, m), Some asset) (album_asset_rows l j t)) <->
  In album l /\ In asset t /\
  In (AlbumsAssets.mk (id album) (AssetEntity.id asset)) j.
Proof.
  split.
  - intros (m & H). apply in_album_asset_rows_some in H. tauto.
  - intros (H1 & H2 & H3). eexists. apply in_album_asset_rows_some. eauto.
Qed.

(** *** [hasAsset] *)

Lemma hasAsset_reachable (id0 assetId : string) (s : Store) :
  reachable s = true ->
  exists b,
    hasAsset id0 assetId s =
    (inr b, mkStore true (reportsAffected s) (S (issued s)) (database s)) /\
    (b = true <->
     exists album asset,
       In album (albums (database s)) /\ id album = id0 /\
       In asset (assets (database s)) /\ AssetEntity.id asset = assetId /\
       member (database s) id0 assetId).
Proof.
  intros Hr. eexists. split.
  - unfold hasAsset, query, statement. rewrite Hr. reflexivity.
  - rewrite holds_exists, nonempty_in. unfold member. split.
    + intros ([[album m] oa] & H). apply in_where in H as [Hin Hc].
      apply holds_and in Hc as [H1 H2]. cbn [fst snd] in H1, H2.
      apply holds_eq in H1. apply holds_eq_some in H2.
      destruct oa as [asset|]; [|discriminate]. injection H2 as H2.
      apply in_album_asset_rows_some in Hin as (Hal & Ht & Hj & _).
      exists album, asset. subst. auto.
    + intros (album & asset & Hal & <- & Ht & <- & Hj).
      exists ((album, Some (AlbumsAssets.mk (id album) (AssetEntity.id asset))),
              Some asset).
      apply in_where. split.
      * apply in_album_asset_rows_some. auto.
      * apply holds_and. cbn [fst snd option_map]. split.
        -- now apply holds_eq.
        -- now apply holds_eq_some.
Qed.

(** *** [getById] *)

#[warnings="-notation-for-abbreviation"]
Local Notation joined_row :=
  ((AlbumEntity.t * option AlbumsAssets.t) * option AssetEntity.t)%type.

#[warnings="-notation-for-abbreviation"]
Local Notation created_key :=
  (fun r : joined_row =>
     match option_map AssetEntity.fileCreatedAt (snd r) with
     | Some z => z
     | None => 0%Z
     end).

Lemma in_hydrateAssets (rows : list joined_row) (asset : AssetEntity.t) :
  In asset (hydrateAssets rows) <-> exists row, In row rows /\ snd row = Some asset.
Proof.
  unfold hydrateAssets. rewrite in_flat_map. split.
  - intros (row & Hrow & H). exists row. split; [assumption|].
    destruct (snd row); simpl in H; [|contradiction].
    destruct H as [->|[]]. reflexivity.
  - intros (row & Hrow & E). exists row. split; [assumption|].
    rewrite E. now left.
Qed.

Lemma hydrateAssets_app (l l' : list joined_row) :
  hydrateAssets (l ++ l') = hydrateAssets l ++ hydrateAssets l'.
Proof. apply flat_map_app. Qed.

Lemma hydrateAssets_nulls (rows : list joined_row) :
  (forall row, In row rows -> snd row = None) -> hydrateAssets rows = [].
Proof.
  induction rows as [|row rows IH]; [reflexivity|]. intros H.
  unfold hydrateAssets in *. simpl.
  rewrite (H row (or_introl eq_refl)). simpl. apply IH.
  intros r Hr. apply H. now right.
Qed.

(** Rows that all carry an asset and are sorted on its timestamp give
    assets sorted on their timestamp. *)
Lemma hydrateAssets_newest_first (rows : list joined_row) :
  (forall row, In row rows -> snd row <> None) ->
  newest_first created_key rows ->
  newest_first AssetEntity.fileCreatedAt (hydrateAssets rows).
Proof.
  unfold newest_first. intros Hsome Hs.
  induction Hs as [|row rows Hs IH Hall]; [constructor|].
  unfold hydrateAssets in *. cbn [flat_map].
  destruct (snd row) as [asset|] eqn:E.
  2:{ exfalso. apply (Hsome row); [now left|assumption]. }
  simpl. constructor.
  - apply IH. intros r Hr. apply Hsome. now right.
  - apply Forall_forall. intros other Ho.
    apply in_hydrateAssets in Ho as (r & Hr & Er).
    pose proof (proj1 (Forall_forall _ _) Hall r Hr) as Hle.
    cbn beta in Hle. rewrite Er in Hle. exact Hle.
Qed.

(** The assets [getById] loads for an album: its member assets, newest
    first. *)
Lemma loaded_assets (d : Database) (album : AlbumEntity.t) :
  (forall asset,
      In asset (hydrateAssets (assetsRows d album)) <->
      In asset (assets d) /\ member d (id album) (AssetEntity.id asset)) /\
  newest_first AssetEntity.fileCreatedAt (hydrateAssets (assetsRows d album)).
Proof.
  unfold assetsRows, order_by_desc_nulls_first.
  rewrite hydrateAssets_app, hydrateAssets_nulls.
  2:{ intros row H. apply filter_In in H as [_ H].
      destruct (snd row); [discriminate|reflexivity]. }
  cbn [app]. split.
  - intros asset. rewrite in_hydrateAssets. unfold member. split.
    + intros ([[al m] oa] & Hin & E). cbn [snd] in E. subst oa.
      apply in_order_by_desc, filter_In in Hin as [Hin _].
      apply in_album_asset_rows_some in Hin as ([<-|[]] & Ht & Hj & _).
      auto.
    + intros (Ht & Hj).
      exists ((album, Some (AlbumsAssets.mk (id album) (AssetEntity.id asset))),
              Some asset).
      split; [|reflexivity].
      apply in_order_by_desc, filter_In. split; [|reflexivity].
      apply in_album_asset_rows_some. simpl. auto.
  - apply hydrateAssets_newest_first.
    + intros row H. apply in_order_by_desc, filter_In in H as [_ H].
      destruct (snd row); [discriminate|discriminate].
    + apply order_by_desc_newest_first.
Qed.

Lemma getById_reachable (id0 : string) (options : AlbumInfoOptions) (s : Store) :
  reachable s = true ->
  getById id0 options s =
  (inr (match where_ (fun album => Sql.eq (Some (id album)) (Some id0))
                     (albums (database s)) with
        | [] => None
        | album :: _ =>
            Some (mkAlbumWithAssets
                    album
                    (if withAssets options
                     then Some (hydrateAssets (assetsRows (database s) album))
                     else None))
        end),
   mkStore true (reportsAffected s) (S (issued s)) (database s)).
Proof.
  intros Hr. unfold getById, query, statement. now rewrite Hr.
Qed.

End FinderFacts.

(* ===================================================================== *)
(** ** Facts about how the methods compose *)
(* ===================================================================== *)

Module CompositionFacts.
Import Sql SqlFacts AlbumRepository Invariant QueryFacts StatementFacts.
Import CountFacts OrderFacts WriterFacts FinderFacts.

Lemma in_same_elements (ids ids' : list string) (x : string) :
  (forall i, In i ids <-> In i ids') -> in_ x ids = in_ x ids'.
Proof.
  intros H. unfold in_. f_equal.
  destruct (existsb (String.eqb x) ids) eqn:E, (existsb (String.eqb x) ids') eqn:E';
    try reflexivity.
  - apply existsb_exists in E as (y & Hy & Hxy). apply H in Hy.
    assert (existsb (String.eqb x) ids' = true) as F
        by (apply existsb_exists; eauto).
    congruence.
  - apply existsb_exists in E' as (y & Hy & Hxy). apply H in Hy.
    assert (existsb (String.eqb x) ids = true) as F
        by (apply existsb_exists; eauto).
    congruence.
Qed.

Lemma countByAlbumsQuery_same_elements (ids ids' : list string) (d : Database) :
  (forall i, In i ids <-> In i ids') ->
  countByAlbumsQuery ids d = countByAlbumsQuery ids' d.
Proof.
  intros H. unfold countByAlbumsQuery, where_.
  rewrite (filter_ext
             (fun r : AlbumEntity.t * option AlbumsAssets.t =>
                holds (in_ (AlbumEntity.id (fst r)) ids))
             (fun r => holds (in_ (AlbumEntity.id (fst r)) ids')));
    [reflexivity|].
  intros r. now rewrite (in_same_elements _ _ _ H).
Qed.

Lemma NoDup_map_filter {A B} (f : A -> B) (g : A -> bool) (l : list A) :
  NoDup (map f l) -> NoDup (map f (filter g l)).
Proof.
  induction l as [|x l IH]; simpl; [trivial|].
  intros H. apply NoDup_cons_iff in H as [Hx Hl].
  destruct (g x); simpl; [|now apply IH].
  constructor; [|now apply IH].
  intros Hin. apply Hx. apply in_map_iff in Hin as (y & E & Hy).
  apply filter_In in Hy as [Hy _]. apply in_map_iff. eauto.
Qed.

Lemma getByIds_reachable (ids : list string) (s : Store) :
  reachable s = true ->
  getByIds ids s =
  (inr (where_ (fun album => in_ (AlbumEntity.id album) ids)
               (albums (database s))),
   mkStore true (reportsAffected s) (S (issued s)) (database s)).
Proof.
  intros Hr. unfold getByIds, query, statement. now rewrite Hr.
Qed.

Lemma getOwned_reachable (owner : string) (s : Store) :
  reachable s = true ->
  getOwned owner s =
  (inr (order_by_desc
          AlbumEntity.createdAt
          (filter (fun album => String.eqb (AlbumEntity.ownerId album) owner)
                  (albums (database s)))),
   mkStore true (reportsAffected s) (S (issued s)) (database s)).
Proof.
  intros Hr. unfold getOwned, query, statement, where_. rewrite Hr.
  rewrite (filter_ext _ (fun album =>
                           String.eqb (AlbumEntity.ownerId album) owner));
    [reflexivity|].
  intros album. simpl. now destruct (String.eqb _ _).
Qed.

(** The first row that [findOne] keeps. *)
Lemma first_where_id (rows : list AlbumEntity.t) (id0 : string) :
  match where_ (fun album => Sql.eq (Some (AlbumEntity.id album)) (Some id0))
               rows with
  | [] => ~ In id0 (map AlbumEntity.id rows)
  | album :: _ => In album rows /\ AlbumEntity.id album = id0
  end.
Proof.
  destruct (where_ _ rows) as [|album rest] eqn:E.
  - intros Hin. apply in_map_iff in Hin as (album & Hid & Hal).
    assert (In album
               (where_ (fun album =>
                          Sql.eq (Some (AlbumEntity.id album)) (Some id0)) rows))
      as H by (apply in_where; split; [assumption|now apply holds_eq]).
    rewrite E in H. destruct H.
  - assert (In album
               (where_ (fun album =>
                          Sql.eq (Some (AlbumEntity.id album)) (Some id0)) rows))
      as H by (rewrite E; now left).
    apply in_where in H as [H1 H2]. apply holds_eq in H2. auto.
Qed.

Lemma getById_found (id0 : string) (options : AlbumInfoOptions)
      (s s' : Store) (found : AlbumWithAssets) :
  getById id0 options s = (inr (Some found), s') ->
  reachable s = true /\
  In (entity found) (albums (database s)) /\
  AlbumEntity.id (entity found) = id0 /\
  loadedAssets found =
  (if withAssets options
   then Some (hydrateAssets (assetsRows (database s) (entity found)))
   else None).
Proof.
  destruct (reachable s) eqn:Hr.
  - rewrite (getById_reachable id0 options s Hr).
    pose proof (first_where_id (albums (database s)) id0) as Hfirst.
    destruct (where_ _ (albums (database s))) as [|album rest]; [discriminate|].
    intros [= <- _]. cbn [entity loadedAssets]. tauto.
  - unfold getById, query, statement. rewrite Hr. discriminate.
Qed.

(** The first of the loaded assets is a latest member of the album. *)
Lemma loaded_assets_head (d : Database) (album : AlbumEntity.t)
      (asset : AssetEntity.t) (rest : list AssetEntity.t) :
  hydrateAssets (assetsRows d album) = asset :: rest ->
  latest_member d album asset.
Proof.
  intros E. destruct (loaded_assets d album) as [Hmem Hsorted].
  rewrite E in Hmem, Hsorted. unfold latest_member.
  destruct (proj1 (Hmem asset) (or_introl eq_refl)) as [Ha Hm].
  split; [assumption|]. split; [assumption|].
  intros other Ho Hom.
  destruct (proj2 (Hmem other) (conj Ho Hom)) as [<-|Hin]; [lia|].
  apply StronglySorted_inv in Hsorted as [_ Hall].
  exact (proj1 (Forall_forall _ _) Hall other Hin).
Qed.

(** The count of an album, album ids being unique: its rows in the join
    table. *)
Lemma entry_count (ids : list string) (d : Database) (c : AlbumAssetCount) :
  albumsPrimaryKey d ->
  In c (map (fun albumCount =>
               mkAlbumAssetCount (album_id albumCount)
                                 (Number (asset_count albumCount)))
            (countByAlbumsQuery ids d)) ->
  assetCount c =
  Finite (List.length
            (filter (fun row => String.eqb (AlbumsAssets.albumsId row) (albumId c))
                    (albums_assets_assets d))).
Proof.
  intros Hpk Hc.
  assert (In (albumId c) (map AlbumEntity.id (albums d))) as Hin.
  { apply (in_map albumId) in Hc.
    rewrite entries_ids, nodup_In, joined_keys in Hc. tauto. }
  apply in_entries in Hc as [Hid ->]. f_equal.
  etransitivity.
  { exact (count_group ids (albums_assets_assets d) (albumId c) (albums d) Hid). }
  rewrite (one_row_per_key _ _ Hpk Hin). apply Nat.mul_1_l.
Qed.

Lemma length_filter_split {A} (p q : A -> bool) (l : list A) :
  List.length (filter p l)
  = List.length (filter p (filter q l))
    + List.length (filter (fun r => p r && negb (q r)) l).
Proof.
  induction l as [|x l IH]; [reflexivity|]. simpl.
  destruct (p x) eqn:Ep, (q x) eqn:Eq; simpl; rewrite ?Ep; simpl; lia.
Qed.

Lemma one_join_row (j : list AlbumsAssets.t) (x y : string) :
  NoDup j -> In (AlbumsAssets.mk x y) j ->
  List.length
    (filter (fun r => String.eqb (AlbumsAssets.albumsId r) x
                      && negb (negb (String.eqb (AlbumsAssets.assetsId r) y)))
            j) = 1.
Proof.
  induction j as [|[x' y'] j IH]; [intros _ []|].
  intros Hnd Hin. apply NoDup_cons_iff in Hnd as [Hnot Hnd]. simpl.
  destruct (String.eqb_spec x' x) as [->|Ex], (String.eqb_spec y' y) as [->|Ey];
    simpl.
  - rewrite filter_none; [reflexivity|].
    intros [x'' y''] H. simpl.
    destruct (String.eqb_spec x'' x) as [->|], (String.eqb_spec y'' y) as [->|];
      simpl; try reflexivity.
    contradiction.
  - apply IH; [assumption|]. destruct Hin as [[=]|]; [congruence|assumption].
  - apply IH; [assumption|]. destruct Hin as [[=]|]; [congruence|assumption].
  - apply IH; [assumption|]. destruct Hin as [[=]|]; [congruence|assumption].
Qed.

Lemma no_join_row (j : list AlbumsAssets.t) (x y : string) :
  ~ In (AlbumsAssets.mk x y) j ->
  List.length
    (filter (fun r => String.eqb (AlbumsAssets.albumsId r) x
                      && negb (negb (String.eqb (AlbumsAssets.assetsId r) y)))
            j) = 0.
Proof.
  intros Hno. rewrite filter_none; [reflexivity|].
  intros [x' y'] H. simpl.
  destruct (String.eqb_spec x' x) as [->|], (String.eqb_spec y' y) as [->|];
    simpl; try reflexivity.
  contradiction.
Qed.

End CompositionFacts.

(* ===================================================================== *)
(** ** Further properties of the repository *)
(* ===================================================================== *)

Import OrderFacts WriterFacts FinderFacts CompositionFacts.

(** X1 ([removeAsset] forgets one asset).  On a reachable store
    [removeAsset a] resolves; afterwards no album has [a] as a member, every
    other membership is as before, and the tables [albums] and [assets] are
    untouched. *)
Theorem removeAsset_forgets_asset (a : string) (s : Store) :
  reachable s = true ->
  exists s',
    removeAsset a s = (inr tt, s') /\
    albums (database s') = albums (database s) /\
    assets (database s') = assets (database s) /\
    forall x y, member (database s') x y <->
                member (database s) x y /\ y <> a.
Proof.
  intros Hr. eexists. split; [apply (removeAsset_reachable a s Hr)|].
  split; [reflexivity|]. split; [reflexivity|].
  intros x y. eapply member_after_removeAsset.
  apply (removeAsset_reachable a s Hr).
Qed.

Lemma removeAsset_forgets_asset_witness :
  reachable (up shelf) = true /\
  exists s',
    removeAsset "p1" (up shelf) = (inr tt, s') /\
    albums (database s') = albums shelf /\
    assets (database s') = assets shelf /\
    forall x y, member (database s') x y <-> member shelf x y /\ y <> "p1".
Proof.
  split; [reflexivity|].
  exact (removeAsset_forgets_asset "p1" (up shelf) eq_refl).
Defined.

(** X2 ([removeAsset] leaves thumbnails behind).  [removeAsset a] does not
    touch thumbnails: every album whose thumbnail is [a] is listed by
    [getInvalidThumbnail] right after it. *)
Theorem removeAsset_invalidates_thumbnail
        (a : string) (s s1 : Store) (album : AlbumEntity.t) :
  removeAsset a s = (inr tt, s1) ->
  In album (albums (database s)) ->
  AlbumEntity.albumThumbnailAssetId album = Some a ->
  exists found s2,
    getInvalidThumbnail s1 = (inr found, s2) /\
    In (AlbumEntity.id album) found.
Proof.
  intros Hrun Hin Ht.
  pose proof (removeAsset_resolved a s s1 Hrun) as (_ & Hr1 & _ & Hd).
  do 2 eexists. split; [apply (getInvalidThumbnail_reachable s1 Hr1)|].
  apply in_map, in_where. split.
  - rewrite Hd. exact Hin.
  - apply invalidThumbnail_violated. unfold violated. rewrite Ht.
    rewrite (member_after_removeAsset a s s1 _ _ Hrun). tauto.
Qed.

Lemma removeAsset_invalidates_thumbnail_witness :
  removeAsset "p1" (up shelf) = (inr tt, mkStore true true 1 shelf_without_p1) /\
  In (AlbumEntity.mk "P" "ann" 10 (Some "p1")) (albums shelf) /\
  exists found s2,
    getInvalidThumbnail (mkStore true true 1 shelf_without_p1)
      = (inr found, s2) /\
    In "P" found.
Proof.
  split; [reflexivity|]. split; [now left|].
  exact (removeAsset_invalidates_thumbnail
           "p1" (up shelf) (mkStore true true 1 shelf_without_p1)
           (AlbumEntity.mk "P" "ann" 10 (Some "p1"))
           eq_refl (or_introl eq_refl) eq_refl).
Defined.

(** X3 ([removeAsset], then [updateThumbnails]).  Under the foreign key,
    after [removeAsset a] followed by [updateThumbnails] every album
    satisfies the thumbnail invariant and no album has [a] as its
    thumbnail. *)
Theorem removeAsset_then_updateThumbnails
        (a : string) (s s1 s2 : Store) (n : option nat) :
  referentialIntegrity (database s) = true ->
  removeAsset a s = (inr tt, s1) ->
  updateThumbnails s1 = (inr n, s2) ->
  forall album,
    In album (albums (database s2)) ->
    satisfied (database s2) album /\
    AlbumEntity.albumThumbnailAssetId album <> Some a.
Proof.
  intros Hfk Hrm Hup album Hin.
  pose proof (referentialIntegrity_after_removeAsset a s s1 Hrm Hfk) as Hfk1.
  apply updateThumbnails_resolved in Hup as (_ & _ & Hd2 & _).
  pose proof (updateAlbums_restores (database s1) Hfk1) as Hnone.
  rewrite <- Hd2 in Hnone.
  assert (satisfied (database s2) album) as Hsat.
  { apply invalidThumbnail_satisfied.
    exact (proj1 (where_nil _ _) Hnone album Hin). }
  split; [exact Hsat|].
  intros Ht. unfold satisfied in Hsat. rewrite Ht in Hsat.
  unfold member in Hsat. rewrite Hd2, updateAlbums_albums_assets in Hsat.
  apply (member_after_removeAsset a s s1 _ _ Hrm) in Hsat. tauto.
Qed.

Lemma removeAsset_then_updateThumbnails_witness :
  referentialIntegrity shelf = true /\
  removeAsset "p1" (up shelf) = (inr tt, mkStore true true 1 shelf_without_p1) /\
  updateThumbnails (mkStore true true 1 shelf_without_p1)
    = (inr (Some 1), mkStore true true 2 shelf_without_p1_reconciled) /\
  forall album,
    In album (albums shelf_without_p1_reconciled) ->
    satisfied shelf_without_p1_reconciled album /\
    AlbumEntity.albumThumbnailAssetId album <> Some "p1".
Proof.
  split; [reflexivity|]. split; [reflexivity|]. split; [reflexivity|].
  exact (removeAsset_then_updateThumbnails
           "p1" (up shelf) (mkStore true true 1 shelf_without_p1)
           (mkStore true true 2 shelf_without_p1_reconciled) (Some 1)
           eq_refl eq_refl eq_refl).
Defined.

(** X4 ([removeAsset] twice, or for nothing).  A second [removeAsset a]
    right after the first leaves the tables as they are, and so does a first
    one when [a] is a member of no album. *)
Theorem removeAsset_idempotent (a : string) (s s1 : Store) :
  removeAsset a s = (inr tt, s1) ->
  (forall s2, removeAsset a s1 = (inr tt, s2) -> database s2 = database s1) /\
  ((forall x, ~ member (database s) x a) -> database s1 = database s).
Proof.
  intros H1.
  pose proof (removeAsset_resolved a s s1 H1) as (_ & _ & _ & Hd1). split.
  - intros s2 H2. apply removeAsset_resolved in H2 as (_ & _ & _ & Hd2).
    rewrite Hd2, Hd1. cbn [albums assets albums_assets_assets].
    now rewrite filter_idem.
  - intros Hno. rewrite Hd1. destruct (database s) as [al ass j].
    cbn [albums assets albums_assets_assets] in *. f_equal.
    apply filter_all. intros [x y] Hrow. simpl.
    destruct (String.eqb_spec y a) as [->|]; [|reflexivity].
    exfalso. exact (Hno x Hrow).
Qed.

Lemma removeAsset_idempotent_witness :
  removeAsset "p1" (up shelf) = (inr tt, mkStore true true 1 shelf_without_p1) /\
  (forall s2,
      removeAsset "p1" (mkStore true true 1 shelf_without_p1) = (inr tt, s2) ->
      database s2 = shelf_without_p1) /\
  ((forall x, ~ member shelf x "p1") -> shelf_without_p1 = shelf).
Proof.
  split; [reflexivity|].
  exact (removeAsset_idempotent
           "p1" (up shelf) (mkStore true true 1 shelf_without_p1) eq_refl).
Defined.

(** X5 ([removeAsset] commutes).  Removing two assets in one order or the
    other leaves the same tables. *)
Theorem removeAsset_commutes (a b : string) (s sa sab sb sba : Store) :
  removeAsset a s = (inr tt, sa) -> removeAsset b sa = (inr tt, sab) ->
  removeAsset b s = (inr tt, sb) -> removeAsset a sb = (inr tt, sba) ->
  database sab = database sba.
Proof.
  intros Ha Hab Hb Hba.
  apply removeAsset_resolved in Ha as (_ & _ & _ & Ha).
  apply removeAsset_resolved in Hab as (_ & _ & _ & Hab).
  apply removeAsset_resolved in Hb as (_ & _ & _ & Hb).
  apply removeAsset_resolved in Hba as (_ & _ & _ & Hba).
  rewrite Hab, Hba, Ha, Hb. cbn [albums assets albums_assets_assets].
  f_equal. apply filter_comm.
Qed.

Lemma removeAsset_commutes_witness :
  removeAsset "p1" (up shelf) = (inr tt, mkStore true true 1 shelf_without_p1) /\
  removeAsset "p2" (mkStore true true 1 shelf_without_p1)
    = (inr tt, mkStore true true 2 shelf_without_members) /\
  removeAsset "p2" (up shelf) = (inr tt, mkStore true true 1 shelf_without_p2) /\
  removeAsset "p1" (mkStore true true 1 shelf_without_p2)
    = (inr tt, mkStore true true 2 shelf_without_members) /\
  shelf_without_members = shelf_without_members.
Proof.
  repeat (split; [reflexivity|]).
  exact (removeAsset_commutes
           "p1" "p2" (up shelf)
           (mkStore true true 1 shelf_without_p1)
           (mkStore true true 2 shelf_without_members)
           (mkStore true true 1 shelf_without_p2)
           (mkStore true true 2 shelf_without_members)
           eq_refl eq_refl eq_refl eq_refl).
Defined.

(** X6 (what [hasAsset] answers).  On a reachable store [hasAsset id a]
    resolves, reading only, to true exactly when some album row has the id,
    some asset row has the id [a], and [a] is a member of the album; under
    the foreign key the asset row is implied by the membership. *)
Theorem hasAsset_exact (id0 a : string) (s : Store) :
  reachable s = true ->
  exists b s',
    hasAsset id0 a s = (inr b, s') /\
    database s' = database s /\
    (b = true <->
     In id0 (map AlbumEntity.id (albums (database s))) /\
     In a (map AssetEntity.id (assets (database s))) /\
     member (database s) id0 a) /\
    (referentialIntegrity (database s) = true ->
     (b = true <->
      In id0 (map AlbumEntity.id (albums (database s))) /\
      member (database s) id0 a)).
Proof.
  intros Hr. destruct (hasAsset_reachable id0 a s Hr) as (b & Hrun & Hb).
  exists b. eexists. split; [exact Hrun|]. split; [reflexivity|].
  assert (b = true <->
          In id0 (map AlbumEntity.id (albums (database s))) /\
          In a (map AssetEntity.id (assets (database s))) /\
          member (database s) id0 a) as Hiff.
  { rewrite Hb, !in_map_iff. split.
    - intros (album & asset & H1 & H2 & H3 & H4 & H5). eauto 10.
    - intros ((album & H2 & H1) & (asset & H4 & H3) & H5).
      exists album, asset. auto. }
  split; [exact Hiff|].
  intros Hfk. rewrite Hiff. split; [tauto|].
  intros (H1 & H2). split; [assumption|]. split; [|assumption].
  destruct (proj1 (referentialIntegrity_iff _) Hfk _ H2) as (asset & Ha & E).
  apply in_map_iff. exists asset. auto.
Qed.

Lemma hasAsset_exact_witness :
  reachable (up shelf) = true /\
  exists b s',
    hasAsset "P" "p1" (up shelf) = (inr b, s') /\
    database s' = shelf /\
    (b = true <->
     In "P" (map AlbumEntity.id (albums shelf)) /\
     In "p1" (map AssetEntity.id (assets shelf)) /\
     member shelf "P" "p1").
Proof.
  split; [reflexivity|].
  destruct (hasAsset_exact "P" "p1" (up shelf) eq_refl)
    as (b & s' & H1 & H2 & H3 & _).
  exists b, s'. auto.
Defined.

(** X7 ([hasAsset] after [removeAsset]).  Once [removeAsset a] has resolved,
    [hasAsset id a] resolves to false for every album id. *)
Theorem hasAsset_after_removeAsset (a id0 : string) (s s1 : Store) :
  removeAsset a s = (inr tt, s1) ->
  fst (hasAsset id0 a s1) = inr false.
Proof.
  intros Hrm.
  pose proof (removeAsset_resolved a s s1 Hrm) as (_ & Hr1 & _).
  destruct (hasAsset_reachable id0 a s1 Hr1) as (b & -> & Hb). cbn [fst].
  destruct b; [|reflexivity]. exfalso.
  destruct (proj1 Hb eq_refl) as (_ & _ & _ & _ & _ & _ & Hm).
  apply (member_after_removeAsset a s s1 _ _ Hrm) in Hm. tauto.
Qed.

Lemma hasAsset_after_removeAsset_witness :
  removeAsset "p1" (up shelf) = (inr tt, mkStore true true 1 shelf_without_p1) /\
  fst (hasAsset "P" "p1" (mkStore true true 1 shelf_without_p1)) = inr false.
Proof.
  split; [reflexivity|].
  exact (hasAsset_after_removeAsset
           "p1" "P" (up shelf) (mkStore true true 1 shelf_without_p1) eq_refl).
Defined.

(** X8 (a reconciled thumbnail is an asset of its album).  Under the foreign
    key, once [updateThumbnails] has resolved, [hasAsset] resolves to true
    for every album and the thumbnail it then carries. *)
Theorem hasAsset_thumbnail_after_updateThumbnails
        (s s1 : Store) (n : option nat) (album : AlbumEntity.t) (t : string) :
  referentialIntegrity (database s) = true ->
  updateThumbnails s = (inr n, s1) ->
  In album (albums (database s1)) ->
  AlbumEntity.albumThumbnailAssetId album = Some t ->
  fst (hasAsset (AlbumEntity.id album) t s1) = inr true.
Proof.
  intros Hfk Hup Hin Ht.
  apply updateThumbnails_resolved in Hup as (_ & _ & Hd1 & Hr1 & _).
  pose proof (updateAlbums_restores (database s) Hfk) as Hnone.
  rewrite <- Hd1 in Hnone.
  assert (satisfied (database s1) album) as Hsat.
  { apply invalidThumbnail_satisfied.
    exact (proj1 (where_nil _ _) Hnone album Hin). }
  unfold satisfied in Hsat. rewrite Ht in Hsat.
  destruct (hasAsset_reachable (AlbumEntity.id album) t s1 Hr1) as (b & -> & Hb).
  cbn [fst]. f_equal. apply Hb.
  assert (referentialIntegrity (database s1) = true) as Hfk1.
  { rewrite Hd1. exact Hfk. }
  destruct (proj1 (referentialIntegrity_iff _) Hfk1 _ Hsat) as (asset & Ha & E).
  exists album, asset. auto.
Qed.

Lemma hasAsset_thumbnail_after_updateThumbnails_witness :
  referentialIntegrity library = true /\
  updateThumbnails (up library) = (inr (Some 3), mkStore true true 1 reconciled) /\
  fst (hasAsset "X" "a2" (mkStore true true 1 reconciled)) = inr true.
Proof.
  split; [reflexivity|]. split; [reflexivity|].
  exact (hasAsset_thumbnail_after_updateThumbnails
           (up library) (mkStore true true 1 reconciled) (Some 3)
           (album "X" (Some "a2")) "a2"
           eq_refl eq_refl (or_introl eq_refl) eq_refl).
Defined.

(** X9 (the ids are a set).  [getAssetCountForIds] depends on the list of
    ids only through its elements: repeating or reordering ids changes
    neither the outcome nor the store. *)
Theorem getAssetCountForIds_same_elements (ids ids' : list string) (s : Store) :
  (forall i, In i ids <-> In i ids') ->
  getAssetCountForIds ids s = getAssetCountForIds ids' s.
Proof.
  intros H. unfold getAssetCountForIds.
  destruct ids as [|i ids], ids' as [|i' ids'].
  - reflexivity.
  - exfalso. apply (H i'). now left.
  - exfalso. apply (H i). now left.
  - cbn [List.length Nat.eqb]. unfold await, query, statement, resolve.
    destruct (reachable s); [|reflexivity].
    now rewrite (countByAlbumsQuery_same_elements _ _ _ H).
Qed.

Lemma getAssetCountForIds_same_elements_witness :
  (forall i, In i ["X"; "Y"] <-> In i ["Y"; "X"; "Y"]) /\
  getAssetCountForIds ["X"; "Y"] (up library)
  = getAssetCountForIds ["Y"; "X"; "Y"] (up library).
Proof.
  assert (forall i, In i ["X"; "Y"] <-> In i ["Y"; "X"; "Y"]) as H
      by (intros i; simpl; tauto).
  split; [exact H|].
  exact (getAssetCountForIds_same_elements ["X"; "Y"] ["Y"; "X"; "Y"]
                                           (up library) H).
Defined.

(** X10 (counts and albums agree).  For a non-empty list of ids on a
    reachable store, [getAssetCountForIds] has an entry for exactly the ids
    of the albums that [getByIds] returns; album ids being unique, the
    entries and the albums correspond one to one. *)
Theorem getAssetCountForIds_matches_getByIds (ids : list string) (s : Store) :
  ids <> [] ->
  reachable s = true ->
  exists counts found s1 s2,
    getAssetCountForIds ids s = (inr counts, s1) /\
    getByIds ids s = (inr found, s2) /\
    (forall i, In i (map albumId counts) <->
               In i (map AlbumEntity.id found)) /\
    (albumsPrimaryKey (database s) ->
     Permutation (map albumId counts) (map AlbumEntity.id found)).
Proof.
  intros Hne Hr. do 4 eexists.
  split; [apply (getAssetCountForIds_reachable ids s Hne Hr)|].
  split; [apply (getByIds_reachable ids s Hr)|].
  assert (forall i,
             In i (map albumId
                       (map (fun albumCount =>
                               mkAlbumAssetCount (album_id albumCount)
                                                 (Number (asset_count albumCount)))
                            (countByAlbumsQuery ids (database s)))) <->
             In i (map AlbumEntity.id
                       (where_ (fun album => in_ (AlbumEntity.id album) ids)
                               (albums (database s))))) as Hsame.
  { intros i. rewrite entries_ids, nodup_In, joined_keys, !in_map_iff. split.
    - intros (Hi & album & <- & Hal). exists album. split; [reflexivity|].
      apply in_where. split; [assumption|]. now apply holds_in.
    - intros (album & <- & Hal). apply in_where in Hal as [Hal Hi].
      apply holds_in in Hi. split; [assumption|]. now exists album. }
  split; [exact Hsame|].
  intros Hpk. apply NoDup_Permutation.
  - rewrite entries_ids. apply NoDup_nodup.
  - now apply NoDup_map_filter.
  - exact Hsame.
Qed.

Lemma getAssetCountForIds_matches_getByIds_witness :
  ["Z"; "X"; "nope"] <> [] /\
  reachable (up library) = true /\
  exists counts found s1 s2,
    getAssetCountForIds ["Z"; "X"; "nope"] (up library) = (inr counts, s1) /\
    getByIds ["Z"; "X"; "nope"] (up library) = (inr found, s2) /\
    (forall i, In i (map albumId counts) <->
               In i (map AlbumEntity.id found)).
Proof.
  split; [discriminate|]. split; [reflexivity|].
  destruct (getAssetCountForIds_matches_getByIds
              ["Z"; "X"; "nope"] (up library) ltac:(discriminate) eq_refl)
    as (counts & found & s1 & s2 & H1 & H2 & H3 & _).
  exists counts, found, s1, s2. auto.
Defined.

(** X11 (the check forecasts the correction).  The number that
    [updateThumbnails] resolves to is the number of ids that
    [getInvalidThumbnail] listed just before it (undefined when the driver
    reports no count). *)
Theorem updateThumbnails_counts_invalid
        (s s1 s2 : Store) (found : list string) (n : option nat) :
  getInvalidThumbnail s = (inr found, s1) ->
  updateThumbnails s1 = (inr n, s2) ->
  n = (if reportsAffected s then Some (List.length found) else None).
Proof.
  intros Hget Hup.
  destruct (reachable s) eqn:Hr.
  - rewrite (getInvalidThumbnail_reachable s Hr) in Hget.
    injection Hget as <- <-.
    apply updateThumbnails_resolved in Hup as (_ & -> & _).
    cbn [reportsAffected database]. rewrite updateAlbums_count, length_map.
    reflexivity.
  - unfold getInvalidThumbnail, await, query, statement in Hget.
    rewrite Hr in Hget. discriminate.
Qed.

Lemma updateThumbnails_counts_invalid_witness :
  getInvalidThumbnail (up library)
    = (inr ["X"; "Y"; "Z"], mkStore true true 1 library) /\
  updateThumbnails (mkStore true true 1 library)
    = (inr (Some 3), mkStore true true 2 reconciled) /\
  Some 3 = Some (List.length ["X"; "Y"; "Z"]).
Proof.
  split; [reflexivity|]. split; [reflexivity|].
  exact (updateThumbnails_counts_invalid
           (up library) (mkStore true true 1 library)
           (mkStore true true 2 reconciled) ["X"; "Y"; "Z"] (Some 3)
           eq_refl eq_refl).
Defined.

(** X12 ([getOwned]).  On a reachable store [getOwned owner] resolves,
    reading only, to the album rows of that owner, each as often as the
    table holds it and no other row, the most recently created first. *)
Theorem getOwned_newest_first (owner : string) (s : Store) :
  reachable s = true ->
  exists found s',
    getOwned owner s = (inr found, s') /\
    database s' = database s /\
    Permutation
      found
      (filter (fun album => String.eqb (AlbumEntity.ownerId album) owner)
              (albums (database s))) /\
    newest_first AlbumEntity.createdAt found.
Proof.
  intros Hr. do 2 eexists.
  split; [apply (getOwned_reachable owner s Hr)|].
  split; [reflexivity|].
  split; [apply order_by_desc_perm|apply order_by_desc_newest_first].
Qed.

Lemma getOwned_newest_first_witness :
  reachable (up shelf) = true /\
  exists found s',
    getOwned "ann" (up shelf) = (inr found, s') /\
    database s' = shelf /\
    Permutation
      found
      [AlbumEntity.mk "P" "ann" 10 (Some "p1"); AlbumEntity.mk "Q" "ann" 30 None] /\
    newest_first AlbumEntity.createdAt found.
Proof.
  split; [reflexivity|].
  exact (getOwned_newest_first "ann" (up shelf) eq_refl).
Defined.

(** X13 ([deleteAll], then [getOwned]).  Once [deleteAll user] has
    resolved, [getOwned user] resolves to the empty list, and [getOwned] of
    any other owner resolves to what it resolved to before. *)
Theorem deleteAll_then_getOwned (user : string) (s s1 : Store) :
  deleteAll user s = (inr tt, s1) ->
  fst (getOwned user s1) = inr [] /\
  forall other, other <> user ->
                fst (getOwned other s1) = fst (getOwned other s).
Proof.
  intros Hdel.
  pose proof (deleteAll_resolved user s s1 Hdel) as (Hr & Hr1 & _ & Hd1).
  split.
  - rewrite (getOwned_reachable user s1 Hr1), Hd1. cbn [fst albums].
    rewrite filter_none; [reflexivity|].
    intros album H. apply filter_In in H as [_ H].
    now destruct (String.eqb _ _).
  - intros other Hne.
    rewrite (getOwned_reachable other s1 Hr1), (getOwned_reachable other s Hr).
    rewrite Hd1. cbn [fst albums]. rewrite filter_comm. do 2 f_equal.
    apply filter_all. intros album H. apply filter_In in H as [_ H].
    apply String.eqb_eq in H. rewrite H.
    now apply negb_true_iff, String.eqb_neq.
Qed.

Lemma deleteAll_then_getOwned_witness :
  deleteAll "ann" (up shelf) = (inr tt, mkStore true true 1 shelf_without_ann) /\
  fst (getOwned "ann" (mkStore true true 1 shelf_without_ann)) = inr [] /\
  (forall other, other <> "ann" ->
                 fst (getOwned other (mkStore true true 1 shelf_without_ann))
                 = fst (getOwned other (up shelf))).
Proof.
  split; [reflexivity|].
  exact (deleteAll_then_getOwned
           "ann" (up shelf) (mkStore true true 1 shelf_without_ann) eq_refl).
Defined.

(** X14 ([deleteAll] and the thumbnails of the others).  Album ids being
    unique, once [deleteAll user] has resolved, with the join rows of the
    deleted albums gone, [getInvalidThumbnail] lists exactly the albums of
    the other owners that violated the invariant before: the deletion
    neither breaks nor mends the thumbnail of an album it keeps. *)
Theorem deleteAll_keeps_thumbnail_status (user : string) (s s1 : Store) :
  albumsPrimaryKey (database s) ->
  deleteAll user s = (inr tt, s1) ->
  exists found s2,
    getInvalidThumbnail s1 = (inr found, s2) /\
    forall i, In i found <->
              exists album,
                In album (albums (database s)) /\
                AlbumEntity.id album = i /\
                AlbumEntity.ownerId album <> user /\
                violated (database s) album.
Proof.
  intros Hpk Hdel.
  pose proof (deleteAll_resolved user s s1 Hdel) as (_ & Hr1 & _ & Hd1).
  assert (forall album,
             In album (albums (database s)) ->
             AlbumEntity.ownerId album <> user ->
             (violated (database s1) album <-> violated (database s) album))
    as Hsame.
  { intros album Hin Ho. unfold violated, has_members.
    destruct (AlbumEntity.albumThumbnailAssetId album) as [t|].
    - now rewrite (member_after_deleteAll user s s1 album t Hpk Hdel Hin Ho).
    - split; intros (x & Hx); exists x;
        now apply (member_after_deleteAll user s s1 album x Hpk Hdel Hin Ho). }
  assert (forall album,
             In album (albums (database s1)) <->
             In album (albums (database s)) /\
             AlbumEntity.ownerId album <> user) as Hkept.
  { intros album. rewrite Hd1. cbn [albums].
    rewrite filter_In, negb_true_iff, String.eqb_neq. tauto. }
  do 2 eexists. split; [apply (getInvalidThumbnail_reachable s1 Hr1)|].
  intros i. rewrite in_map_iff. split.
  - intros (album & <- & H). apply in_where in H as [Hin Hv].
    apply Hkept in Hin as [Hin Ho]. apply invalidThumbnail_violated in Hv.
    exists album. repeat split; try assumption. now apply (Hsame album).
  - intros (album & Hin & <- & Ho & Hv). exists album. split; [reflexivity|].
    apply in_where. split; [now apply Hkept|].
    apply invalidThumbnail_violated. now apply (Hsame album).
Qed.

Lemma deleteAll_keeps_thumbnail_status_witness :
  albumsPrimaryKey attic /\
  deleteAll "ann" (up attic) = (inr tt, mkStore true true 1 attic_without_ann) /\
  fst (getInvalidThumbnail (up attic)) = inr ["P"; "R"] /\
  exists found s2,
    getInvalidThumbnail (mkStore true true 1 attic_without_ann)
      = (inr found, s2) /\
    forall i, In i found <->
              exists album,
                In album (albums attic) /\
                AlbumEntity.id album = i /\
                AlbumEntity.ownerId album <> "ann" /\
                violated attic album.
Proof.
  split; [exact attic_primary_key|]. split; [reflexivity|].
  split; [reflexivity|].
  exact (deleteAll_keeps_thumbnail_status
           "ann" (up attic) (mkStore true true 1 attic_without_ann)
           attic_primary_key eq_refl).
Defined.

(** X15 ([getById]).  On a reachable store [getById id options] resolves,
    reading only.  It resolves to null exactly when no album row has the id;
    otherwise to a row of the table with that id, without the relation
    [assets] when [withAssets] is off, and with it when it is on: then the
    assets are those of the album's members that [assets] holds, the most
    recently created first. *)
Theorem getById_result (id0 : string) (options : AlbumInfoOptions) (s : Store) :
  reachable s = true ->
  exists r s',
    getById id0 options s = (inr r, s') /\
    database s' = database s /\
    (r = None <-> ~ In id0 (map AlbumEntity.id (albums (database s)))) /\
    forall found,
      r = Some found ->
      In (entity found) (albums (database s)) /\
      AlbumEntity.id (entity found) = id0 /\
      (withAssets options = false -> loadedAssets found = None) /\
      (withAssets options = true ->
       exists l,
         loadedAssets found = Some l /\
         (forall asset,
             In asset l <->
             In asset (assets (database s)) /\
             member (database s) id0 (AssetEntity.id asset)) /\
         newest_first AssetEntity.fileCreatedAt l).
Proof.
  intros Hr. do 2 eexists.
  split; [apply (getById_reachable id0 options s Hr)|].
  split; [reflexivity|].
  pose proof (first_where_id (albums (database s)) id0) as Hfirst.
  destruct (where_ _ (albums (database s))) as [|album rest].
  - split; [tauto|]. intros found [=].
  - destruct Hfirst as [Hin Hid]. split.
    + split; [discriminate|]. intros Hno. exfalso. apply Hno.
      rewrite <- Hid. now apply in_map.
    + intros found [= <-]. cbn [entity loadedAssets].
      split; [assumption|]. split; [assumption|]. split.
      * now intros ->.
      * intros ->. eexists. split; [reflexivity|].
        rewrite <- Hid. apply loaded_assets.
Qed.

Lemma getById_result_witness :
  reachable (up library) = true /\
  exists r s',
    getById "X" (mkAlbumInfoOptions true) (up library) = (inr r, s') /\
    database s' = library /\
    (r = None <-> ~ In "X" (map AlbumEntity.id (albums library))).
Proof.
  split; [reflexivity|].
  destruct (getById_result "X" (mkAlbumInfoOptions true) (up library) eq_refl)
    as (r & s' & H1 & H2 & H3 & _).
  exists r, s'. auto.
Defined.

(** X16 (a reconciled thumbnail is among the loaded assets).  Under the
    foreign key, once [updateThumbnails] has resolved, an album that
    [getById] returns with its assets has a thumbnail that is one of those
    assets, and has no thumbnail exactly when it has no asset. *)
Theorem getById_thumbnail_after_updateThumbnails
        (id0 : string) (s s1 s2 : Store) (n : option nat)
        (found : AlbumWithAssets) :
  referentialIntegrity (database s) = true ->
  updateThumbnails s = (inr n, s1) ->
  getById id0 (mkAlbumInfoOptions true) s1 = (inr (Some found), s2) ->
  exists l,
    loadedAssets found = Some l /\
    match AlbumEntity.albumThumbnailAssetId (entity found) with
    | Some t => In t (map AssetEntity.id l)
    | None => l = []
    end.
Proof.
  intros Hfk Hup Hget.
  apply updateThumbnails_resolved in Hup as (_ & _ & Hd1 & _).
  apply getById_found in Hget as (_ & Hin & Hid & Hl). cbn [withAssets] in Hl.
  eexists. split; [exact Hl|].
  pose proof (updateAlbums_restores (database s) Hfk) as Hnone.
  rewrite <- Hd1 in Hnone.
  assert (satisfied (database s1) (entity found)) as Hsat.
  { apply invalidThumbnail_satisfied.
    exact (proj1 (where_nil _ _) Hnone _ Hin). }
  assert (referentialIntegrity (database s1) = true) as Hfk1
      by (rewrite Hd1; exact Hfk).
  destruct (loaded_assets (database s1) (entity found)) as [Hmem _].
  unfold satisfied in Hsat.
  destruct (AlbumEntity.albumThumbnailAssetId (entity found)) as [t|].
  - destruct (proj1 (referentialIntegrity_iff _) Hfk1 _ Hsat) as (asset & Ha & E).
    cbn [AlbumsAssets.assetsId] in E. apply in_map_iff. exists asset.
    split; [assumption|]. apply Hmem. split; [assumption|]. now rewrite E.
  - destruct (hydrateAssets _) as [|asset rest] eqn:El; [reflexivity|].
    exfalso. apply Hsat. exists (AssetEntity.id asset).
    apply (Hmem asset). now left.
Qed.

Lemma getById_thumbnail_after_updateThumbnails_witness :
  referentialIntegrity library = true /\
  updateThumbnails (up library) = (inr (Some 3), mkStore true true 1 reconciled) /\
  getById "X" (mkAlbumInfoOptions true) (mkStore true true 1 reconciled)
    = (inr (Some (mkAlbumWithAssets (album "X" (Some "a2")) (Some [a2; a1]))),
       mkStore true true 2 reconciled) /\
  exists l,
    Some [a2; a1] = Some l /\ In "a2" (map AssetEntity.id l).
Proof.
  split; [reflexivity|]. split; [reflexivity|]. split; [reflexivity|].
  exact (getById_thumbnail_after_updateThumbnails
           "X" (up library) (mkStore true true 1 reconciled)
           (mkStore true true 2 reconciled) (Some 3)
           (mkAlbumWithAssets (album "X" (Some "a2")) (Some [a2; a1]))
           eq_refl eq_refl eq_refl).
Defined.

(** X17 (the thumbnail chosen is the first asset shown).  For an album that
    [getById] returns with its assets, the thumbnail that [updateThumbnails]
    would select is NULL when the album shows no asset, and otherwise, the
    latest member being unique, the id of the first asset shown. *)
Theorem newThumbnail_is_first_loaded_asset
        (id0 : string) (s s' : Store) (found : AlbumWithAssets)
        (l : list AssetEntity.t) :
  getById id0 (mkAlbumInfoOptions true) s = (inr (Some found), s') ->
  loadedAssets found = Some l ->
  unique_latest (database s) (entity found) ->
  newThumbnail (database s) (entity found)
  = option_map AssetEntity.id (hd_error l).
Proof.
  intros Hget Hl Huniq.
  apply getById_found in Hget as (_ & _ & _ & Hl'). cbn [withAssets] in Hl'.
  rewrite Hl in Hl'. injection Hl' as ->.
  destruct (loaded_assets (database s) (entity found)) as [Hmem _].
  destruct (hydrateAssets _) as [|asset rest] eqn:E; cbn [hd_error option_map].
  - destruct (newThumbnail _ _) as [x|] eqn:N; [exfalso|reflexivity].
    apply newThumbnail_latest in N as (a & (Ha & Hm & _) & _).
    exact (proj2 (Hmem a) (conj Ha Hm)).
  - apply loaded_assets_head in E.
    destruct (newThumbnail _ _) as [x|] eqn:N.
    + apply newThumbnail_latest in N as (a & La & <-).
      f_equal. now apply Huniq.
    + exfalso. apply newThumbnail_null in N.
      destruct E as (Ha & Hm & _).
      destruct (proj2 (newThumbnailRows_member _ _ _) (conj Ha Hm)) as (row & Hrow).
      rewrite N in Hrow. destruct Hrow.
Qed.

Lemma newThumbnail_is_first_loaded_asset_witness :
  getById "X" (mkAlbumInfoOptions true) (up library)
    = (inr (Some (mkAlbumWithAssets (album "X" None) (Some [a2; a1]))),
       mkStore true true 1 library) /\
  unique_latest library (album "X" None) /\
  newThumbnail library (album "X" None) = Some "a2".
Proof.
  split; [reflexivity|]. split; [exact library_X_unique_latest|].
  exact (newThumbnail_is_first_loaded_asset
           "X" (up library) (mkStore true true 1 library)
           (mkAlbumWithAssets (album "X" None) (Some [a2; a1])) [a2; a1]
           eq_refl eq_refl library_X_unique_latest).
Defined.

(** X18 ([hasAsset] and [getById] agree).  On a reachable store [hasAsset id
    a] resolves to true exactly when [getById id] with [withAssets] returns
    an album that shows an asset with the id [a]. *)
Theorem hasAsset_iff_getById_shows (id0 a : string) (s : Store) :
  reachable s = true ->
  fst (hasAsset id0 a s) = inr true <->
  exists found l,
    fst (getById id0 (mkAlbumInfoOptions true) s) = inr (Some found) /\
    loadedAssets found = Some l /\
    In a (map AssetEntity.id l).
Proof.
  intros Hr.
  destruct (hasAsset_reachable id0 a s Hr) as (b & -> & Hb). cbn [fst].
  rewrite (getById_reachable id0 _ s Hr). cbn [fst withAssets].
  pose proof (first_where_id (albums (database s)) id0) as Hfirst.
  split.
  - intros [= ->].
    destruct (proj1 Hb eq_refl) as (album & asset & Hal & Hid & Ha & Haid & Hm).
    destruct (where_ _ (albums (database s))) as [|first rest].
    + exfalso. apply Hfirst. rewrite <- Hid. now apply in_map.
    + destruct Hfirst as [_ Hfid]. do 2 eexists.
      split; [reflexivity|]. split; [reflexivity|]. cbn [entity].
      apply in_map_iff. exists asset. split; [assumption|].
      apply loaded_assets. rewrite Hfid, Haid. auto.
  - intros (found & l & Hget & Hl & Hin).
    destruct (where_ _ (albums (database s))) as [|first rest]; [discriminate|].
    destruct Hfirst as [Hfin Hfid]. injection Hget as <-.
    cbn [loadedAssets] in Hl. injection Hl as <-.
    apply in_map_iff in Hin as (asset & <- & Hin).
    apply loaded_assets in Hin as [Ha Hm]. f_equal. apply Hb.
    exists first, asset. rewrite Hfid in Hm. auto.
Qed.

Lemma hasAsset_iff_getById_shows_witness :
  reachable (up library) = true /\
  (fst (hasAsset "X" "a1" (up library)) = inr true <->
   exists found l,
     fst (getById "X" (mkAlbumInfoOptions true) (up library))
       = inr (Some found) /\
     loadedAssets found = Some l /\
     In "a1" (map AssetEntity.id l)).
Proof.
  split; [reflexivity|].
  exact (hasAsset_iff_getById_shows "X" "a1" (up library) eq_refl).
Defined.

(** X19 (never a thumbnail from outside the album).  With or without the
    foreign key, a row that [updateThumbnails] has changed carries either no
    thumbnail or a thumbnail that is a member of the album; it never points
    an album to an asset outside it. *)
Theorem updateThumbnails_never_outside
        (s s1 : Store) (n : option nat) (i : nat)
        (before after : AlbumEntity.t) :
  updateThumbnails s = (inr n, s1) ->
  nth_error (albums (database s)) i = Some before ->
  nth_error (albums (database s1)) i = Some after ->
  after <> before ->
  match AlbumEntity.albumThumbnailAssetId after with
  | Some t => member (database s1) (AlbumEntity.id after) t
  | None => True
  end.
Proof.
  intros Hup Hb Ha Hne.
  apply updateThumbnails_resolved in Hup as (_ & _ & Hd1 & _).
  rewrite Hd1, (updateAlbums_row _ _ _ Hb) in Ha. injection Ha as <-.
  destruct (holds (invalidThumbnail (database s) before)); [|congruence].
  cbn [AlbumEntity.albumThumbnailAssetId AlbumEntity.set_albumThumbnailAssetId
       AlbumEntity.id].
  destruct (newThumbnail (database s) before) as [t|] eqn:N; [|exact I].
  apply newThumbnail_member in N. unfold member in *.
  now rewrite Hd1, updateAlbums_albums_assets.
Qed.

Lemma updateThumbnails_never_outside_witness :
  updateThumbnails (up library) = (inr (Some 3), mkStore true true 1 reconciled) /\
  nth_error (albums library) 2 = Some (album "Z" (Some "a9")) /\
  nth_error (albums reconciled) 2 = Some (album "Z" (Some "a7")) /\
  member reconciled "Z" "a7".
Proof.
  split; [reflexivity|]. split; [reflexivity|]. split; [reflexivity|].
  exact (updateThumbnails_never_outside
           (up library) (mkStore true true 1 reconciled) (Some 3) 2
           (album "Z" (Some "a9")) (album "Z" (Some "a7"))
           eq_refl eq_refl eq_refl ltac:(discriminate)).
Defined.

(** X20 ([hasAsset] and the counts).  Album ids being unique, when
    [hasAsset id a] resolves to true, the entry of [getAssetCountForIds] for
    that album counts at least one asset. *)
Theorem hasAsset_counted
        (id0 a : string) (ids : list string) (s : Store)
        (counts : list AlbumAssetCount) (s1 : Store) (c : AlbumAssetCount) :
  albumsPrimaryKey (database s) ->
  fst (hasAsset id0 a s) = inr true ->
  getAssetCountForIds ids s = (inr counts, s1) ->
  In c counts -> albumId c = id0 ->
  exists k, assetCount c = Finite (S k).
Proof.
  intros Hpk Hhas Hrun Hc Hid.
  destruct (reachable s) eqn:Hr.
  2:{ unfold hasAsset, query, statement in Hhas. rewrite Hr in Hhas.
      discriminate. }
  destruct (hasAsset_reachable id0 a s Hr) as (b & Hb & Hiff).
  rewrite Hb in Hhas. injection Hhas as ->.
  destruct (proj1 Hiff eq_refl) as (_ & _ & _ & _ & _ & _ & Hm).
  destruct ids as [|i ids].
  { injection Hrun as <- _. destruct Hc. }
  rewrite (getAssetCountForIds_reachable (i :: ids) s ltac:(discriminate) Hr)
    in Hrun.
  injection Hrun as <- _.
  rewrite (entry_count _ _ _ Hpk Hc), Hid.
  assert (In (AlbumsAssets.mk id0 a)
             (filter (fun row => String.eqb (AlbumsAssets.albumsId row) id0)
                     (albums_assets_assets (database s)))) as Hin.
  { apply filter_In. split; [exact Hm|]. apply String.eqb_refl. }
  destruct (filter _ _) as [|row rest]; [destruct Hin|].
  now exists (List.length rest).
Qed.

Lemma hasAsset_counted_witness :
  albumsPrimaryKey library /\
  fst (hasAsset "X" "a1" (up library)) = inr true /\
  getAssetCountForIds ["X"] (up library)
    = (inr [mkAlbumAssetCount "X" (Finite 2)], mkStore true true 1 library) /\
  exists k, Finite 2 = Finite (S k).
Proof.
  split; [exact library_primary_key|]. split; [reflexivity|].
  split; [reflexivity|].
  exact (hasAsset_counted
           "X" "a1" ["X"] (up library)
           [mkAlbumAssetCount "X" (Finite 2)] (mkStore true true 1 library)
           (mkAlbumAssetCount "X" (Finite 2))
           library_primary_key eq_refl eq_refl (or_introl eq_refl) eq_refl).
Defined.

(** X21 ([removeAsset] and the counts).  Album ids and join rows being
    unique, [removeAsset a] lowers by one the count that
    [getAssetCountForIds] reports for each album that had [a] as a member,
    and leaves the count of every other album as it was; no entry is lost. *)
Theorem removeAsset_lowers_count
        (a : string) (ids : list string) (s s1 s2 s3 : Store)
        (counts counts1 : list AlbumAssetCount) (c : AlbumAssetCount) :
  albumsPrimaryKey (database s) ->
  NoDup (albums_assets_assets (database s)) ->
  getAssetCountForIds ids s = (inr counts, s2) ->
  removeAsset a s = (inr tt, s1) ->
  getAssetCountForIds ids s1 = (inr counts1, s3) ->
  In c counts ->
  exists c1 k,
    In c1 counts1 /\ albumId c1 = albumId c /\ assetCount c1 = Finite k /\
    (member (database s) (albumId c) a -> assetCount c = Finite (S k)) /\
    (~ member (database s) (albumId c) a -> assetCount c = Finite k).
Proof.
  intros Hpk Hnd Hrun Hrm Hrun1 Hc.
  pose proof (removeAsset_resolved a s s1 Hrm) as (Hr & Hr1 & _ & Hd1).
  destruct ids as [|i ids].
  { injection Hrun as <- _. destruct Hc. }
  rewrite (getAssetCountForIds_reachable (i :: ids) s ltac:(discriminate) Hr)
    in Hrun.
  rewrite (getAssetCountForIds_reachable (i :: ids) s1 ltac:(discriminate) Hr1)
    in Hrun1.
  injection Hrun as <- _. injection Hrun1 as <- _.
  assert (albumsPrimaryKey (database s1)) as Hpk1.
  { unfold albumsPrimaryKey. rewrite Hd1. exact Hpk. }
  assert (In (albumId c)
             (map albumId
                  (map (fun albumCount =>
                          mkAlbumAssetCount (album_id albumCount)
                                            (Number (asset_count albumCount)))
                       (countByAlbumsQuery (i :: ids) (database s1))))) as Hin1.
  { apply (in_map albumId) in Hc.
    rewrite entries_ids, nodup_In, joined_keys in Hc |- *.
    rewrite Hd1. exact Hc. }
  apply in_map_iff in Hin1 as (c1 & Hid1 & Hc1).
  exists c1. eexists. split; [exact Hc1|]. split; [exact Hid1|].
  split; [rewrite (entry_count _ _ _ Hpk1 Hc1), Hid1, Hd1; reflexivity|].
  rewrite (entry_count _ _ _ Hpk Hc). cbn [albums_assets_assets].
  rewrite (length_filter_split
             _ (fun row => negb (String.eqb (AlbumsAssets.assetsId row) a))
             (albums_assets_assets (database s))).
  unfold member. split; intros Hm.
  - rewrite (one_join_row _ _ _ Hnd Hm). f_equal. lia.
  - rewrite (no_join_row _ _ _ Hm). f_equal. lia.
Qed.

Lemma removeAsset_lowers_count_witness :
  albumsPrimaryKey shelf /\
  NoDup (albums_assets_assets shelf) /\
  getAssetCountForIds ["P"] (up shelf)
    = (inr [mkAlbumAssetCount "P" (Finite 2)], mkStore true true 1 shelf) /\
  removeAsset "p1" (up shelf) = (inr tt, mkStore true true 1 shelf_without_p1) /\
  getAssetCountForIds ["P"] (mkStore true true 1 shelf_without_p1)
    = (inr [mkAlbumAssetCount "P" (Finite 1)],
       mkStore true true 2 shelf_without_p1) /\
  exists c1 k,
    In c1 [mkAlbumAssetCount "P" (Finite 1)] /\ albumId c1 = "P" /\
    assetCount c1 = Finite k /\
    (member shelf "P" "p1" -> Finite 2 = Finite (S k)) /\
    (~ member shelf "P" "p1" -> Finite 2 = Finite k).
Proof.
  split; [exact shelf_primary_key|]. split; [exact shelf_join_rows_unique|].
  split; [reflexivity|]. split; [reflexivity|]. split; [reflexivity|].
  exact (removeAsset_lowers_count
           "p1" ["P"] (up shelf) (mkStore true true 1 shelf_without_p1)
           (mkStore true true 1 shelf) (mkStore true true 2 shelf_without_p1)
           [mkAlbumAssetCount "P" (Finite 2)] [mkAlbumAssetCount "P" (Finite 1)]
           (mkAlbumAssetCount "P" (Finite 2))
           shelf_primary_key shelf_join_rows_unique
           eq_refl eq_refl eq_refl (or_introl eq_refl)).
Defined.
